(** * SlideshowPy: the slideshow engine of [slide.py]

    A shallow embedding of the class [SlideShow] of [src/slide.py] and of
    the library calls it makes, followed by the properties of the
    engine: the shuffled non-repeating traversal, the EXIF date and GPS
    decoding, the overlay composition and the timer loop.

    Conventions of the embedding.
    - Python [float]s are exact rationals ([Q]): rounding, infinities and
      NaN are outside the model.  Equality of floats is [Qeq].
    - Python [str] and [bytes] are [string]s of bytes (text in UTF-8); the
      patterns the code looks for are ASCII.
    - A [dict] is an association list in insertion order with pairwise
      distinct keys.
    - An exception is a value of [exn]; code that may raise returns a
      [result].  Methods that read or write [self] live in the monad [M],
      which keeps the mutations made before an exception was raised.
    - Everything outside the process (the file system, the image decoder,
      the network, the random generator, the display) is a field of the
      record [World]. *)

From Stdlib Require Import ZArith QArith Qround Qabs Lia Lqa String Ascii.
From stdpp Require Import base list strings.

Local Open Scope string_scope.
Local Open Scope Z_scope.

(** ** Exceptions and results *)

Inductive exn : Set :=
  | IndexError | KeyError | TypeError | ValueError | AttributeError
  | UnboundLocalError | ZeroDivisionError | OSError
  | ConnectionError | JSONDecodeError.

Inductive result (A : Type) : Type :=
  | Ok (a : A)
  | Raise (e : exn).
Arguments Ok {A} a.
Arguments Raise {A} e.

#[global] Instance result_ret : MRet result := λ A a, Ok a.
#[global] Instance result_bind : MBind result := λ A B f r,
  match r with Ok a => f a | Raise e => Raise e end.

Definition is_ok {A} (r : result A) : bool :=
  match r with Ok _ => true | Raise _ => false end.

Definition from_option {A} (e : exn) (o : option A) : result A :=
  match o with Some a => Ok a | None => Raise e end.

(** ** Python values found in EXIF data *)

#[warnings="-register-all"]
Inductive value : Type :=
  | VNone
  | VStr (s : string)
  | VBytes (s : string)
  | VNum (q : Q)
  | VTuple (l : list value)
  | VDict (d : list (Z * value)).

Module Dict.
Section Dict.
Context {K V : Type} `{EqDecision K}.

(** [d.get(k)] with no default is [get k d] read through [from_none]. *)
Fixpoint get (k : K) (d : list (K * V)) : option V :=
  match d with
  | [] => None
  | (k', v) :: d' => if decide (k' = k) then Some v else get k d'
  end.

(** [d[k] = v]: a present key keeps its position, a new one goes last. *)
Fixpoint set (k : K) (v : V) (d : list (K * V)) : list (K * V) :=
  match d with
  | [] => [(k, v)]
  | (k', v') :: d' =>
      if decide (k' = k) then (k, v) :: d' else (k', v') :: set k v d'
  end.

Definition keys (d : list (K * V)) : list K := d.*1.

(** The invariant of a dict: no key occurs twice. *)
Definition wf (d : list (K * V)) : Prop := NoDup (keys d).

End Dict.
End Dict.

Definition from_none (o : option value) : value := default VNone o.

(** [bool(v)] *)
Definition truthy (v : value) : bool :=
  match v with
  | VNone => false
  | VStr s | VBytes s => negb (String.eqb s "")
  | VNum q => negb (Qeq_bool q 0)
  | VTuple l => negb (bool_decide (l = []))
  | VDict d => negb (bool_decide (d = []))
  end.

(** [v == VStr s] for a [str] on the right: only an equal [str] is equal. *)
Definition eq_str (v : value) (s : string) : bool :=
  match v with VStr s' => String.eqb s' s | _ => false end.

Fixpoint string_nth (n : nat) (s : string) : option ascii :=
  match s, n with
  | EmptyString, _ => None
  | String c _, O => Some c
  | String _ s', S n' => string_nth n' s'
  end.

(** [v[i]] for a literal index [i >= 0]. *)
Definition subscript (v : value) (i : nat) : result value :=
  match v with
  | VTuple l => from_option IndexError (l !! i)
  | VStr s =>
      from_option IndexError ((λ c, VStr (String c "")) <$> string_nth i s)
  | VBytes s =>
      from_option IndexError
        ((λ c, VNum (inject_Z (Z.of_N (N_of_ascii c)))) <$> string_nth i s)
  | VDict d => from_option KeyError (Dict.get (Z.of_nat i) d)
  | VNone | VNum _ => Raise TypeError
  end.

(** [round(q)] with one argument: to the nearest integer, ties to even. *)
Definition round_half_even (q : Q) : Z :=
  let f := Qfloor q in
  match (q - inject_Z f ?= 1 # 2)%Q with
  | Lt => f
  | Gt => f + 1
  | Eq => if Z.even f then f else f + 1
  end.

Definition py_round (v : value) : result Z :=
  match v with
  | VNum q => Ok (round_half_even q)
  | _ => Raise TypeError
  end.

(** ** Decimal text *)

Definition digit (n : Z) : ascii := ascii_of_N (48 + Z.to_N (n mod 10)).

Definition is_digit (c : ascii) : bool :=
  (48 <=? N_of_ascii c)%N && (N_of_ascii c <=? 57)%N.

Definition digit_val (c : ascii) : Z := Z.of_N (N_of_ascii c) - 48.

(** [int(s)] for a string of ASCII digits. *)
Definition int_of_digits (s : string) : Z :=
  fold_left (λ acc c, 10 * acc + digit_val c) (list_ascii_of_string s) 0.

(** [%02d] and [%04d] *)
Definition pad2 (n : Z) : string :=
  String (digit (n / 10)) (String (digit n) "").
Definition pad4 (n : Z) : string :=
  String (digit (n / 1000)) (String (digit (n / 100)) (pad2 n)).

(** [str(n)] for an [int]. *)
Fixpoint digits_fuel (fuel : nat) (n : Z) (acc : string) : string :=
  match fuel with
  | O => acc
  | S fuel' =>
      let acc' := String (digit n) acc in
      if (n <? 10)%Z then acc' else digits_fuel fuel' (n / 10) acc'
  end.

Definition str_of_int (n : Z) : string :=
  if (n <? 0)%Z then String "-" (digits_fuel (S (Z.to_nat (Z.log2 (- n)))) (- n) "")
  else digits_fuel (S (Z.to_nat (Z.log2 n))) n "".

(** ** [datetime]: [strptime] and [strftime] for the two formats used *)

Record datetime : Set := Datetime {
  year : Z; month : Z; day : Z; hour : Z; minute : Z; second : Z
}.

Definition is_leap (y : Z) : bool :=
  (y mod 4 =? 0)%Z && (negb (y mod 100 =? 0)%Z || (y mod 400 =? 0)%Z).

Definition days_in_month (y m : Z) : Z :=
  if (m =? 2)%Z then (if is_leap y then 29 else 28)
  else if bool_decide (m ∈ [4; 6; 9; 11]) then 30 else 31.

(** The checks of the [datetime] constructor. *)
Definition valid_datetime (t : datetime) : bool :=
  bool_decide (1 ≤ year t ≤ 9999 ∧ 1 ≤ month t ≤ 12
               ∧ 1 ≤ day t ≤ days_in_month (year t) (month t)
               ∧ 0 ≤ hour t ≤ 23 ∧ 0 ≤ minute t ≤ 59 ∧ 0 ≤ second t ≤ 59).

(** [strptime] compiles its format to a regular expression and matches
    it with backtracking.  Every directive of ["%Y:%m:%d %H:%M:%S"] is an
    alternation of fixed-length sequences of character classes, tried in
    order; the blank of the format is [\s+]. *)
Module Re.

Definition cls := ascii → bool.

Definition chr (c : ascii) : cls := Ascii.eqb c.
Definition rng (a b : ascii) : cls := λ c,
  (N_of_ascii a <=? N_of_ascii c)%N && (N_of_ascii c <=? N_of_ascii b)%N.
Definition d09 : cls := rng "0" "9".

Definition is_space (c : ascii) : bool :=
  bool_decide (N_of_ascii c ∈ [9; 10; 11; 12; 13; 28; 29; 30; 31; 32]%N).

(** The text matched by a sequence of classes at the head of [s], and
    what follows it. *)
Fixpoint classes (p : list cls) (s : string) : option (string * string) :=
  match p, s with
  | [], _ => Some ("", s)
  | f :: p', String c s' =>
      if f c then
        match classes p' s' with
        | Some (m, r) => Some (String c m, r)
        | None => None
        end
      else None
  | _ :: _, EmptyString => None
  end.

(** [p1|p2|...] followed by the continuation [k]: the first alternative
    after which [k] succeeds. *)
Fixpoint alt {A} (alts : list (list cls)) (s : string)
    (k : string → string → option A) : option A :=
  match alts with
  | [] => None
  | p :: alts' =>
      match classes p s with
      | Some (m, r) =>
          match k m r with Some a => Some a | None => alt alts' s k end
      | None => alt alts' s k
      end
  end.

Definition lit {A} (c : ascii) (s : string) (k : string → option A)
    : option A :=
  match s with
  | String c' s' => if Ascii.eqb c c' then k s' else None
  | EmptyString => None
  end.

(** [\s*], greedy *)
Fixpoint spaces {A} (s : string) (k : string → option A) : option A :=
  match s with
  | String c s' =>
      if is_space c then
        match spaces s' k with Some a => Some a | None => k s end
      else k s
  | EmptyString => k s
  end.

(** [\s+] *)
Definition spaces1 {A} (s : string) (k : string → option A) : option A :=
  match s with
  | String c s' => if is_space c then spaces s' k else None
  | EmptyString => None
  end.

Definition Y : list (list cls) := [[d09; d09; d09; d09]].
Definition m : list (list cls) :=
  [[chr "1"; rng "0" "2"]; [chr "0"; rng "1" "9"]; [rng "1" "9"]].
Definition d : list (list cls) :=
  [[chr "3"; rng "0" "1"]; [rng "1" "2"; d09]; [chr "0"; rng "1" "9"];
   [rng "1" "9"]; [chr " "; rng "1" "9"]].
Definition H : list (list cls) :=
  [[chr "2"; rng "0" "3"]; [rng "0" "1"; d09]; [d09]].
Definition M : list (list cls) := [[rng "0" "5"; d09]; [d09]].
Definition S : list (list cls) :=
  [[chr "6"; rng "0" "1"]; [rng "0" "5"; d09]; [d09]].

(** The groups of a match of the compiled format and the unmatched tail. *)
Definition exif_format (s : string)
    : option (string * string * string * string * string * string * string) :=
  alt Y s (λ tY r, lit ":" r (λ r,
  alt m r (λ tm r, lit ":" r (λ r,
  alt d r (λ td r, spaces1 r (λ r,
  alt H r (λ tH r, lit ":" r (λ r,
  alt M r (λ tM r, lit ":" r (λ r,
  alt S r (λ tS r, Some (tY, tm, td, tH, tM, tS, r)))))))))))).

End Re.

(** [int(s)] on a matched group: the day may carry a leading blank. *)
Definition py_int (s : string) : Z :=
  match s with
  | String " " s' => int_of_digits s'
  | _ => int_of_digits s
  end.

(** [datetime.strptime(s, "%Y:%m:%d %H:%M:%S")] *)
Definition strptime (s : string) : result datetime :=
  match Re.exif_format s with
  | None => Raise ValueError
  | Some (tY, tm, td, tH, tM, tS, rest) =>
      if String.eqb rest "" then
        let t := Datetime (py_int tY) (py_int tm) (py_int td)
                          (py_int tH) (py_int tM) (py_int tS) in
        if valid_datetime t then Ok t else Raise ValueError
      else Raise ValueError
  end.


(** The text of a date in the EXIF layout [YYYY:MM:DD HH:MM:SS]. *)
Definition exif_text (t : datetime) : string :=
  pad4 (year t) +:+ ":" +:+ pad2 (month t) +:+ ":" +:+ pad2 (day t) +:+ " "
  +:+ pad2 (hour t) +:+ ":" +:+ pad2 (minute t) +:+ ":" +:+ pad2 (second t).

(** ** The world outside the process *)

(** What [Image.open] hands back: the size, the result of [_getexif()]
    (absent on the formats without EXIF support, hence [AttributeError])
    and whether the pixel data decodes. *)
Record image : Type := Image {
  width : Z;
  height : Z;
  _getexif : result (option (list (Z * value)));
  load : result ()
}.

(** A decoded JSON document. *)
#[warnings="-register-all"]
Inductive json : Type :=
  | JNull
  | JBool (b : bool)
  | JNum (q : Q)
  | JStr (s : string)
  | JArr (l : list json)
  | JObj (o : list (string * json)).

(** What [requests.get] hands back; [json ()] decodes the body. *)
Record response : Type := Response { resp_json : result json }.

Record World : Type := {
  (** [PIL.ExifTags.TAGS] *)
  TAGS : Z → option string;
  (** [float(s)] for text and [format(x)] for a float *)
  float_of_str : string → result Q;
  str_of_float : Q → string;
  (** the C library's [%Y]: the four digits of a year from 1000 on; below,
      platforms differ on the padding *)
  strftime_year : Z → string;
  (** [os.walk(top)]: the triples [(root, dirs, files)] in walk order *)
  os_walk : string → list (string * list string * list string);
  (** the k-th draw of the random generator *)
  random_bits : nat → nat;
  image_open : string → result image;
  (** [os.stat(path).st_mtime] and [datetime.fromtimestamp] *)
  st_mtime : string → result Q;
  fromtimestamp : Q → result datetime;
  (** [os.environ.get("API_KEY")] *)
  environ_API_KEY : option string;
  (** the outcome of the k-th HTTP request of the process *)
  requests_get : nat → string → result response;
  winfo_screenwidth : Z;
  winfo_screenheight : Z
}.

(** [PIL.ExifTags.GPSTAGS] *)
Definition GPSTAGS : list (Z * string) :=
  [(0, "GPSVersionID"); (1, "GPSLatitudeRef"); (2, "GPSLatitude");
   (3, "GPSLongitudeRef"); (4, "GPSLongitude"); (5, "GPSAltitudeRef");
   (6, "GPSAltitude"); (7, "GPSTimeStamp"); (8, "GPSSatellites");
   (9, "GPSStatus"); (10, "GPSMeasureMode"); (11, "GPSDOP");
   (12, "GPSSpeedRef"); (13, "GPSSpeed"); (14, "GPSTrackRef");
   (15, "GPSTrack"); (16, "GPSImgDirectionRef"); (17, "GPSImgDirection");
   (18, "GPSMapDatum"); (19, "GPSDestLatitudeRef"); (20, "GPSDestLatitude");
   (21, "GPSDestLongitudeRef"); (22, "GPSDestLongitude");
   (23, "GPSDestBearingRef"); (24, "GPSDestBearing");
   (25, "GPSDestDistanceRef"); (26, "GPSDestDistance");
   (27, "GPSProcessingMethod"); (28, "GPSAreaInformation");
   (29, "GPSDateStamp"); (30, "GPSDifferential");
   (31, "GPSHPositioningError")].

(** [{tags[k]: v for k, v in d.items() if k in tags}] *)
Definition rename_keys (tags : Z → option string) (d : list (Z * value))
    : list (string * value) :=
  fold_left (λ acc kv,
               match tags kv.1 with
               | Some name => Dict.set name kv.2 acc
               | None => acc
               end) d [].

(** ** Metadata *)

Section Metadata.
Variable W : World.

Definition parse_image_data (image_obj : image)
    : result (list (string * value)) :=
  exif ← _getexif image_obj;
  match exif with
  | None | Some [] => Ok []
  | Some exif => Ok (rename_keys (TAGS W) exif)
  end.

(** [t.strftime("%d/%m/%Y %H:%M:%S")] *)
Definition strftime (t : datetime) : string :=
  pad2 (day t) +:+ "/" +:+ pad2 (month t) +:+ "/" +:+ strftime_year W (year t)
  +:+ " " +:+ pad2 (hour t) +:+ ":" +:+ pad2 (minute t) +:+ ":"
  +:+ pad2 (second t).

Definition get_image_date (image_path : string) (image_date : value)
    : result string :=
  date ← (if truthy image_date then
            match image_date with
            | VStr s => strptime s
            | _ => Raise TypeError
            end
          else
            t ← st_mtime W image_path; fromtimestamp W t);
  Ok (strftime date).

(** [float(v)] *)
Definition py_float (v : value) : result Q :=
  match v with
  | VNum q => Ok q
  | VStr s | VBytes s => float_of_str W s
  | VNone | VTuple _ | VDict _ => Raise TypeError
  end.

Definition dms_to_decimal (dms : value) : result Q :=
  d ← subscript dms 0 ≫= py_float;
  m ← subscript dms 1 ≫= py_float;
  s ← subscript dms 2 ≫= py_float;
  Ok (d + m / 60 + s / 3600)%Q.


(** The locals [lat], [lon] and [alt] are bound by the guarded block
    only; the [return] reads them whether or not it ran. *)
Definition get_image_coords (gps_info : value) : result (Q * Q * Z) :=
  items ← match gps_info with
          | VDict d => Ok d
          | _ => Raise AttributeError
          end;
  let coords_data := rename_keys (λ k, Dict.get k GPSTAGS) items in
  let get name := from_none (Dict.get name coords_data) in
  locals ←
    (if negb (bool_decide (coords_data = [])) then
       lat ← dms_to_decimal (get "GPSLatitude");
       lon ← dms_to_decimal (get "GPSLongitude");
       alt ← py_round (get "GPSAltitude");
       let lat := if negb (eq_str (get "GPSLatitudeRef") "N")
                  then (lat * -1)%Q else lat in
       let lon := if negb (eq_str (get "GPSLongitudeRef") "E")
                  then (lon * -1)%Q else lon in
       Ok (Some lat, Some lon, Some alt)
     else Ok (None, None, None));
  match locals with
  | (Some lat, Some lon, Some alt) => Ok (lat, lon, alt)
  | _ => Raise UnboundLocalError
  end.

End Metadata.

(** ** Navigating the geocoder's answer *)

(** [j[key]] for a [str] key *)
Definition json_key (j : json) (key : string) : result json :=
  match j with
  | JObj o => from_option KeyError (Dict.get key o)
  | _ => Raise TypeError
  end.

(** [j[0]] *)
Definition json_first (j : json) : result json :=
  match j with
  | JArr l => from_option IndexError (head l)
  | JStr s =>
      from_option IndexError ((λ c, JStr (String c "")) <$> string_nth 0 s)
  | JObj _ => Raise KeyError
  | JNull | JBool _ | JNum _ => Raise TypeError
  end.

(** [s + j] for a [str] on the left *)
Definition str_add (s : string) (j : json) : result string :=
  match j with
  | JStr s' => Ok (s +:+ s')
  | _ => Raise TypeError
  end.

(** [j + s] for a [str] on the right *)
Definition add_str (j : json) (s : string) : result string :=
  match j with
  | JStr s' => Ok (s' +:+ s)
  | _ => Raise TypeError
  end.

(** ** [Image.thumbnail] *)

Definition Qabs_diff (a b : Q) : Q := Qabs (a - b).

(** [max(min(floor(number), ceil(number), key=key), 1)] *)
Definition round_aspect (number : Q) (key : Z → Q) : Z :=
  let lo := Qfloor number in
  let hi := Qceiling number in
  Z.max (if Qle_bool (key lo) (key hi) then lo else hi) 1.

(** The size of an image of [w] by [h] pixels after
    [thumbnail((x, y), ...)]. *)
Definition thumbnail_size (x y w h : Z) : result (Z * Z) :=
  if (w <=? x) && (h <=? y) then Ok (w, h)
  else if h =? 0 then Raise ZeroDivisionError
  else
    let aspect := (inject_Z w / inject_Z h)%Q in
    if y =? 0 then Raise ZeroDivisionError
    else if Qle_bool aspect (inject_Z x / inject_Z y) then
      Ok (round_aspect (inject_Z y * aspect)
            (λ n, Qabs_diff aspect (inject_Z n / inject_Z y)), y)
    else if Qeq_bool aspect 0 then Raise ZeroDivisionError
    else
      Ok (x, round_aspect (inject_Z x / aspect)
               (λ n, if n =? 0 then 0%Q
                     else Qabs_diff aspect (inject_Z x / inject_Z n))).

(** ** Paths (the POSIX flavour of [os.path], [os.sep = "/"]) *)

Definition os_sep : ascii := "/".

Fixpoint replace_char (a b : ascii) (s : string) : string :=
  match s with
  | EmptyString => EmptyString
  | String c s' => String (if Ascii.eqb c a then b else c) (replace_char a b s')
  end.

Fixpoint lower (s : string) : string :=
  match s with
  | EmptyString => EmptyString
  | String c s' =>
      let n := N_of_ascii c in
      String (if (65 <=? n)%N && (n <=? 90)%N then ascii_of_N (n + 32) else c)
             (lower s')
  end.

Definition endswith (s suffix : string) : bool :=
  let n := String.length s in
  let k := String.length suffix in
  (k <=? n)%nat && String.eqb (String.substring (n - k) k s) suffix.

Definition os_path_join (a b : string) : string :=
  if String.prefix "/" b then b
  else if String.eqb a "" || endswith a "/" then a +:+ b
  else a +:+ "/" +:+ b.

(** [s.split(sep)[-1]]: what follows the last separator. *)
Fixpoint last_component (sep : ascii) (s : string) : string :=
  match s with
  | EmptyString => EmptyString
  | String c s' =>
      if bool_decide (sep ∈ list_ascii_of_string s') then last_component sep s'
      else if Ascii.eqb c sep then s' else s
  end.

(** ** Discovery and shuffling *)

Definition is_image_file (file : string) : bool :=
  existsb (λ x, endswith (lower file) x) [".jpg"; ".jpeg"; ".png"; ".gif"].

(** The paths appended by the two nested loops of [get_images]. *)
Definition discover (walk : list (string * list string * list string))
    : list string :=
  walk ≫= λ '(root, _, files),
    os_path_join root <$> filter (λ file, is_image_file file = true) files.

(** [x[i], x[j] = x[j], x[i]] *)
Definition swap {A} (i j : nat) (x : list A) : list A :=
  match x !! i, x !! j with
  | Some a, Some b => <[j:=a]> (<[i:=b]> x)
  | _, _ => x
  end.

(** [random.shuffle]: for [i] from [len(x) - 1] down to 1, exchange
    [x[i]] with [x[randbelow(i + 1)]]; [call] counts the draws. *)
Fixpoint shuffle_loop {A} (rnd : nat → nat) (i call : nat) (x : list A)
    : list A :=
  match i with
  | O => x
  | S i' => shuffle_loop rnd i' (S call) (swap i (rnd call mod (i + 1))%nat x)
  end.

Definition shuffle {A} (rnd : nat → nat) (x : list A) : list A :=
  shuffle_loop rnd (length x - 1) 0 x.

(** ** The window and its methods *)

(** An [ImageTk.PhotoImage]: the file it shows and its size in pixels. *)
Record photo : Type := PhotoImage { photo_file : string; photo_size : Z * Z }.

(** The items of the canvas (every text is white, in Ubuntu 12); a text
    option that is [None] is not passed on to Tk. *)
Inductive item : Type :=
  | CanvasImage (x y : Q) (anchor : string) (im : photo)
  | CanvasText (x y : Q) (text : option string) (anchor : string).

(** What [after] can be asked to call: the bound method, with no
    argument. *)
Inductive callback : Set := StartSlideshow.

(** The attributes of [self], the timers Tk holds for it and the URLs
    requested so far. *)
Record SlideShow : Type := MkSlideShow {
  directory : string;
  screen_w : Z;
  screen_h : Z;
  image_list : list string;
  current_image : option photo;
  current_id : nat;
  canvas : list item;
  timers : list (Z * callback);
  requests : list string
}.

Definition set_image_list (l : list string) (s : SlideShow) : SlideShow :=
  MkSlideShow (directory s) (screen_w s) (screen_h s) l (current_image s)
    (current_id s) (canvas s) (timers s) (requests s).
Definition set_current_image (p : option photo) (s : SlideShow) : SlideShow :=
  MkSlideShow (directory s) (screen_w s) (screen_h s) (image_list s) p
    (current_id s) (canvas s) (timers s) (requests s).
Definition set_current_id (i : nat) (s : SlideShow) : SlideShow :=
  MkSlideShow (directory s) (screen_w s) (screen_h s) (image_list s)
    (current_image s) i (canvas s) (timers s) (requests s).
Definition set_canvas (c : list item) (s : SlideShow) : SlideShow :=
  MkSlideShow (directory s) (screen_w s) (screen_h s) (image_list s)
    (current_image s) (current_id s) c (timers s) (requests s).
Definition set_timers (t : list (Z * callback)) (s : SlideShow) : SlideShow :=
  MkSlideShow (directory s) (screen_w s) (screen_h s) (image_list s)
    (current_image s) (current_id s) (canvas s) t (requests s).
Definition set_requests (r : list string) (s : SlideShow) : SlideShow :=
  MkSlideShow (directory s) (screen_w s) (screen_h s) (image_list s)
    (current_image s) (current_id s) (canvas s) (timers s) r.

(** A method: it may raise, and the state it leaves is kept either way. *)
Definition M (A : Type) : Type := SlideShow → result A * SlideShow.

#[global] Instance M_ret : MRet M := λ A a s, (Ok a, s).
#[global] Instance M_bind : MBind M := λ A B f m s,
  match m s with
  | (Ok a, s') => f a s'
  | (Raise e, s') => (Raise e, s')
  end.

Definition lift {A} (r : result A) : M A := λ s, (r, s).
Definition gets {A} (f : SlideShow → A) : M A := λ s, (Ok (f s), s).
Definition modify (f : SlideShow → SlideShow) : M () := λ s, (Ok (), f s).

Definition str_of_key (key : option string) : string := default "None" key.

(** [bool(x)] for a text that may be [None] *)
Definition truthy_str (x : option string) : bool :=
  match x with
  | Some s => negb (String.eqb s "")
  | None => false
  end.

Definition placeholder : string := "Lieu non défini".

Section Methods.
Variable W : World.

Definition get_images : M () :=
  d ← gets directory;
  modify (λ s, set_image_list (image_list s ++ discover (os_walk W d)) s);;
  modify (λ s, set_image_list (shuffle (random_bits W) (image_list s)) s).

(** [__init__]: the window, the empty canvas, then [get_images()]. *)
Definition init (dir : string) : SlideShow :=
  let dir := replace_char "\" os_sep (replace_char "/" os_sep dir) in
  (get_images
     (MkSlideShow dir (winfo_screenwidth W) (winfo_screenheight W)
        [] None 0 [] [] [])).2.

(** [req.json()["data"][0][field]] *)
Definition first_result (req : response) (field : string) : result json :=
  j ← resp_json req;
  data ← json_key j "data";
  first ← json_first data;
  json_key first field.

Definition get_image_location (lat lon : Q) : M string :=
  let key := environ_API_KEY W in
  let url := "http://api.positionstack.com/v1/reverse?access_key="
             +:+ str_of_key key +:+ "&query=" +:+ str_of_float W lat +:+ ","
             +:+ str_of_float W lon +:+ "&limit=1" in
  k ← gets (λ s, length (requests s));
  modify (λ s, set_requests (requests s ++ [url]) s);;
  req ← lift (requests_get W k url);
  lift (name ← first_result req "name";
        head ← add_str name ", ";
        locality ← first_result req "locality";
        str_add head locality).

(** The second half of [show_image]: the thumbnail, the photo and the
    five canvas items. *)
Definition draw (filepath filename : string) (image : image)
    (image_date : string) (image_alt : option string) (image_loc : string)
    : M () :=
  sw ← gets screen_w;
  sh ← gets screen_h;
  size ← lift (thumbnail_size sw sh (width image) (height image));
  lift (load image);;
  modify (set_current_image (Some (PhotoImage filepath size)));;
  modify (set_canvas []);;
  modify (λ s, set_canvas (canvas s ++
    [CanvasImage (inject_Z sw / 2)%Q (inject_Z sh / 2)%Q "center"
       (PhotoImage filepath size);
     (* Image date top left *)
     CanvasText 20%Q 10%Q (Some image_date) "nw";
     (* Image location bottom left *)
     CanvasText 20%Q
       (inject_Z (sh - (if truthy_str image_alt then 30 else 10)))
       (Some image_loc) "sw";
     CanvasText 20%Q (inject_Z (sh - 10)) image_alt "sw";
     (* Image name bottom right *)
     CanvasText (inject_Z (sw - 20)) (inject_Z (sh - 10)) (Some filename)
       "se"]) s).

Definition show_image (filepath : string) : M () :=
  image ← lift (image_open W filepath);
  let filename := last_component os_sep filepath in
  image_data ← lift (parse_image_data W image);
  image_date ← lift (get_image_date W filepath
                       (default (from_none (Dict.get "DateTime" image_data))
                          (Dict.get "DateTimeOriginal" image_data)));
  '(image_coords, image_alt, image_loc) ←
    (if truthy (from_none (Dict.get "GPSInfo" image_data)) then
       image_coords ← lift (get_image_coords W
                              (from_none (Dict.get "GPSInfo" image_data)));
       let image_alt := "Altitude : " +:+ str_of_int image_coords.2 +:+ "m" in
       image_loc ← get_image_location image_coords.1.1 image_coords.1.2;
       mret (image_coords, Some image_alt, image_loc)
     else mret ((0%Q, 0%Q, 0), None, placeholder));
  draw filepath filename image image_date image_alt image_loc.

(** The first two statements of [start_slideshow]: the image at the
    cursor, and the cursor moved on. *)
Definition select_and_advance : M string :=
  l ← gets image_list;
  i ← gets current_id;
  image ← lift (from_option IndexError (l !! i));
  modify (set_current_id ((i + 1) mod length l)%nat);;
  mret image.

Definition start_slideshow (delay : Z) : M () :=
  image ← select_and_advance;
  show_image image;;
  modify (λ s, set_timers (timers s ++ [(delay * 1000, StartSlideshow)]) s).

(** ** The event loop *)

(** The default of the parameter [delay]. *)
Definition default_delay : Z := 4.

(** Tk calls the callback with no argument. *)
Definition call (cb : callback) : M () :=
  match cb with StartSlideshow => start_slideshow default_delay end.

(** One turn of [mainloop] with a timer due: the oldest one fires after
    its delay; what its callback raises is reported and the loop goes
    on.  The turn yields the delay waited and the outcome. *)
Definition mainloop_turn (s : SlideShow)
    : option (Z * result ()) * SlideShow :=
  match timers s with
  | [] => (None, s)
  | (ms, cb) :: ts =>
      let '(r, s') := call cb (set_timers ts s) in (Some (ms, r), s')
  end.

(** The delays waited by the first [n] turns of the loop. *)
Fixpoint mainloop (n : nat) (s : SlideShow) : list Z * SlideShow :=
  match n with
  | O => ([], s)
  | S n' =>
      match mainloop_turn s with
      | (None, s') => ([], s')
      | (Some (ms, _), s') =>
          let '(l, s'') := mainloop n' s' in (ms :: l, s'')
      end
  end.

End Methods.

(** ** Closed forms used by the proofs *)

(** [n] successive calls of the select-and-advance step, up to the first
    that raises: the paths returned and the state left. *)
Fixpoint nexts (n : nat) (s : SlideShow) : list string * SlideShow :=
  match n with
  | O => ([], s)
  | S n' =>
      match select_and_advance s with
      | (Ok image, s') => let '(l, s'') := nexts n' s' in (image :: l, s'')
      | (Raise _, s') => ([], s')
      end
  end.

(** The state [draw] leaves when it succeeds with a thumbnail of [size]. *)
Definition drawn (filepath : string) (image : image) (image_date : string)
    (image_alt : option string) (image_loc : string) (size : Z * Z)
    (s : SlideShow) : SlideShow :=
  set_canvas
    [CanvasImage (inject_Z (screen_w s) / 2)%Q (inject_Z (screen_h s) / 2)%Q
       "center" (PhotoImage filepath size);
     CanvasText 20%Q 10%Q (Some image_date) "nw";
     CanvasText 20%Q
       (inject_Z (screen_h s - (if truthy_str image_alt then 30 else 10)))
       (Some image_loc) "sw";
     CanvasText 20%Q (inject_Z (screen_h s - 10)) image_alt "sw";
     CanvasText (inject_Z (screen_w s - 20)) (inject_Z (screen_h s - 10))
       (Some (last_component os_sep filepath)) "se"]
    (set_current_image (Some (PhotoImage filepath size)) s).

(** The URL requested for a pair of coordinates, and the place read off
    the answer. *)
Definition request_url (W : World) (lat lon : Q) : string :=
  "http://api.positionstack.com/v1/reverse?access_key="
  +:+ str_of_key (environ_API_KEY W) +:+ "&query=" +:+ str_of_float W lat
  +:+ "," +:+ str_of_float W lon +:+ "&limit=1".

Definition location_of (req : response) : result string :=
  name ← first_result req "name";
  head ← add_str name ", ";
  locality ← first_result req "locality";
  str_add head locality.

(** The ways the lookup of a place fails: the request raises, the body is
    not JSON, the answer lacks [data], the result set is empty, or the
    first result lacks [name] or [locality]. *)
Inductive lookup_failure : result response → exn → Prop :=
  | network_failure e : lookup_failure (Raise e) e
  | undecodable_body e : lookup_failure (Ok (Response (Raise e))) e
  | missing_data o :
      Dict.get "data" o = None →
      lookup_failure (Ok (Response (Ok (JObj o)))) KeyError
  | empty_result_set o :
      Dict.get "data" o = Some (JArr []) →
      lookup_failure (Ok (Response (Ok (JObj o)))) IndexError
  | missing_name o first rest :
      Dict.get "data" o = Some (JArr (JObj first :: rest)) →
      Dict.get "name" first = None →
      lookup_failure (Ok (Response (Ok (JObj o)))) KeyError
  | missing_locality o first rest n :
      Dict.get "data" o = Some (JArr (JObj first :: rest)) →
      Dict.get "name" first = Some (JStr n) →
      Dict.get "locality" first = None →
      lookup_failure (Ok (Response (Ok (JObj o)))) KeyError.

(** ** Sample worlds

    A directory [img/] with three images and a text file, on a display of
    1920 by 1080 pixels.  [a.jpg] carries a capture date and a GPS block,
    [b.PNG] has no metadata and [c.jpeg] has a date only.  [other/d.jpg],
    outside the directory, has a GPS block whose only key is no GPS tag. *)
Module Sample.

Definition gps : list (Z * value) :=
  [(0, VBytes "abc"); (1, VStr "S");
   (2, VTuple [VNum 48; VNum 51; VNum (3024 # 100)]); (3, VStr "E");
   (4, VTuple [VNum 2; VNum 17; VNum 40]); (6, VNum (357 # 10))].

Definition files : list (string * image) :=
  [("img/a.jpg",
    Image 4000 3000
      (Ok (Some [(271, VStr "Cam"); (36867, VStr "2021:05:10 14:30:00");
                 (34853, VDict gps)])) (Ok ()));
   ("img/b.PNG", Image 800 600 (Ok None) (Ok ()));
   ("img/sub/c.jpeg",
    Image 1000 3000 (Ok (Some [(306, VStr "2019:01:02 03:04:05")])) (Ok ()));
   ("other/d.jpg",
    Image 640 480 (Ok (Some [(34853, VDict [(99, VNum 1)])])) (Ok ()))].

Definition answer : json :=
  JObj [("data", JArr [JObj [("name", JStr "Tour Eiffel");
                             ("locality", JStr "Paris")]])].

(** A world whose geocoder answers every request with [geocoder]. *)
Definition world (geocoder : result response) : World := {|
  TAGS := λ k, Dict.get k [(271, "Make"); (306, "DateTime");
                           (34853, "GPSInfo"); (36867, "DateTimeOriginal")];
  float_of_str := λ _, Raise ValueError;
  str_of_float := λ q, str_of_int (Qfloor q);
  strftime_year := pad4;
  os_walk := λ top,
    if String.eqb top "img/" then
      [("img/", ["sub"], ["a.jpg"; "notes.txt"; "b.PNG"]);
       ("img/sub", [], ["c.jpeg"])]
    else [];
  random_bits := λ k, (7 * k + 3)%nat;
  image_open := λ path, from_option OSError (Dict.get path files);
  st_mtime := λ _, Ok 1620657000%Q;
  fromtimestamp := λ _, Ok (Datetime 2021 5 10 16 30 0);
  environ_API_KEY := Some "k";
  requests_get := λ _ _, geocoder;
  winfo_screenwidth := 1920;
  winfo_screenheight := 1080
|}.

Definition online : World := world (Ok (Response (Ok answer))).
Definition offline : World := world (Raise ConnectionError).
Definition no_result : World :=
  world (Ok (Response (Ok (JObj [("data", JArr [])])))).
Definition malformed : World :=
  world (Ok (Response (Ok (JObj [("error", JStr "invalid_access_key")])))).

End Sample.

(** ** Rotations *)

(** The sequence read from position [c] round to [c] again. *)
Definition rotate_from {A} (c : nat) (l : list A) : list A :=
  drop c l ++ take c l.

(** * The row store of [db.py]

    The class [DB] keeps a connection and one cursor.  What SQLite does
    with a statement is outside the program: the engine is a record of
    oracles that answer from the history of the connection.  The state of
    a [DB] object is that history, together with the lines printed. *)
Module DB.

Inductive event : Type :=
  | Execute (sql : string) (params : list value)
  | Commit
  | Print (line : string).

(** What the methods return: [False], [None], an [int] or a row. *)
Inductive ret : Type :=
  | RFalse
  | RNone
  | RInt (n : Z)
  | RRow (row : list value).

Definition truthy_ret (r : ret) : bool :=
  match r with
  | RFalse | RNone => false
  | RInt n => negb (n =? 0)
  | RRow row => negb (bool_decide (row = []))
  end.

Record Engine : Type := {
  (** the rows a statement yields, or what it raises *)
  execute : list event → string → list value → result (list (list value));
  commit : list event → result ();
  (** [cursor.lastrowid]: an [int], or [None] *)
  lastrowid : list event → option Z;
  (** [format(v)] for a value that is neither a [str] nor [None] *)
  format : value → string
}.

(** A method of [DB]: it may raise, and the history it leaves is kept. *)
Definition M (A : Type) : Type := list event → result A * list event.

#[global] Instance M_ret : MRet M := λ A a h, (Ok a, h).
#[global] Instance M_bind : MBind M := λ A B f m h,
  match m h with
  | (Ok a, h') => f a h'
  | (Raise e, h') => (Raise e, h')
  end.

(** [cursor.fetchone()] on a fresh result set, as a return value. *)
Definition fetchone (rows : list (list value)) : ret :=
  match rows with
  | [] => RNone
  | row :: _ => RRow row
  end.

Section Methods.
Variable E : Engine.

(** [self.cursor.execute(sql, params)]: the statement joins the history
    whether or not it raises. *)
Definition cursor_execute (sql : string) (params : list value)
    : M (list (list value)) :=
  λ h, (execute E h sql params, (h ++ [Execute sql params])%list).

Definition conn_commit : M () := λ h, (commit E h, (h ++ [Commit])%list).

Definition print (line : string) : M () :=
  λ h, (Ok (), (h ++ [Print line])%list).

Definition cursor_lastrowid : M ret :=
  λ h, (Ok (match lastrowid E h with Some n => RInt n | None => RNone end), h).

(** [f"{v}"] *)
Definition fmt (v : value) : string :=
  match v with
  | VStr s => s
  | VNone => "None"
  | _ => format E v
  end.

Definition create_table (table_name : string)
    (columns : list (string * string)) : M ret :=
  rows ← cursor_execute
           ("SELECT name FROM sqlite_master WHERE type='table' AND name='"
            +:+ table_name +:+ "'") [];
  if truthy_ret (fetchone rows) then
    print ("Table '" +:+ table_name +:+ "' already exists, skipping...");;
    mret RFalse
  else
    let columns := (λ kv, kv.1 +:+ " " +:+ kv.2) <$> columns in
    cursor_execute
      ("CREATE TABLE " +:+ table_name +:+ " ("
       +:+ String.concat ", " columns +:+ ")") [];;
    mret RNone.

Definition insert_row (table_name : string) (data : list (string * value))
    : M ret :=
  let columns := data.*1 in
  let values := data.*2 in
  rows ← cursor_execute
           ("SELECT * FROM " +:+ table_name +:+ " WHERE "
            +:+ String.concat " OR "
                  (zip_with (λ c v, c +:+ "='" +:+ fmt v +:+ "'")
                     columns values)) [];
  if truthy_ret (fetchone rows) then
    print ("Row already exists in table '" +:+ table_name +:+ "'");;
    mret RFalse
  else
    cursor_execute
      ("INSERT INTO " +:+ table_name +:+ " ("
       +:+ String.concat ", " columns +:+ ") VALUES ("
       +:+ String.concat ", " (replicate (length values) "?") +:+ ")")
      values;;
    conn_commit;;
    cursor_lastrowid.

Definition get_row (table_name column : string) (value : value) : M ret :=
  rows ← cursor_execute
           ("SELECT * FROM " +:+ table_name +:+ " WHERE " +:+ column
            +:+ " = ?") [value];
  mret (fetchone rows).

End Methods.

(** An engine over a database whose only table is [locations], with one
    row, and which answers a lookup with that row when [found] holds. *)
Definition sample (found : bool) : Engine := {|
  execute := λ _ sql _,
    if found && String.prefix "SELECT" sql
    then Ok [[VNum 1; VStr "eiffel_tower.jpg"; VStr "Paris"]]
    else Ok [];
  commit := λ _, Ok ();
  lastrowid := λ h, Some (Z.of_nat (length h));
  format := λ _, "1"
|}.

End DB.

(** * Properties *)

(** ** Dictionaries *)

Section DictFacts.
Context {K V : Type} `{EqDecision K}.
Implicit Types (d : list (K * V)) (k : K) (v : V).

Lemma get_not_in k d : k ∉ Dict.keys d → Dict.get k d = None.
Proof.
  unfold Dict.keys. induction d as [|[k' v'] d IH]; simpl; [done|].
  intros Hk. apply not_elem_of_cons in Hk as [? ?].
  case_decide; [congruence | auto].
Qed.

Lemma get_set_eq k v d : Dict.get k (Dict.set k v d) = Some v.
Proof.
  induction d as [|[k' v'] d IH]; simpl.
  - by case_decide.
  - case_decide; simpl; case_decide; congruence.
Qed.

Lemma get_set_ne k k' v d : k' ≠ k → Dict.get k (Dict.set k' v d) = Dict.get k d.
Proof.
  intros Hne. induction d as [|[k1 v1] d IH]; simpl.
  - by case_decide.
  - repeat (case_decide; simpl); congruence.
Qed.

Lemma get_elem_of k v d : Dict.get k d = Some v → (k, v) ∈ d.
Proof.
  induction d as [|[k' v'] d IH]; simpl; [done|].
  case_decide.
  - intros [= ->]. subst. left.
  - intros. right. auto.
Qed.

Lemma get_some_nonempty k v d : Dict.get k d = Some v → d ≠ [].
Proof. by destruct d. Qed.

End DictFacts.

Section RenameKeys.
Variable tags : Z → option string.

Lemma rename_keys_acc_unrecognised (d : list (Z * value)) acc :
  (∀ k v, (k, v) ∈ d → tags k = None) →
  fold_left (λ acc kv,
               match tags kv.1 with
               | Some name => Dict.set name kv.2 acc
               | None => acc
               end) d acc = acc.
Proof.
  revert acc. induction d as [|[k v] d IH]; intros acc Hd; simpl; [done|].
  rewrite (Hd k v) by left. apply IH. intros k' v' ?. apply (Hd k' v'). by right.
Qed.

Lemma rename_keys_unrecognised (d : list (Z * value)) :
  (∀ k v, (k, v) ∈ d → tags k = None) → rename_keys tags d = [].
Proof. apply rename_keys_acc_unrecognised. Qed.

Lemma rename_keys_acc_get (d : list (Z * value)) acc k name :
  tags k = Some name →
  (∀ k', tags k' = Some name → k' = k) →
  Dict.wf d →
  Dict.get name
    (fold_left (λ acc kv,
                  match tags kv.1 with
                  | Some name => Dict.set name kv.2 acc
                  | None => acc
                  end) d acc)
  = match Dict.get k d with Some v => Some v | None => Dict.get name acc end.
Proof.
  intros Hk Hinj. revert acc.
  induction d as [|[k1 v1] d IH]; intros acc Hwf; simpl; [done|].
  apply NoDup_cons in Hwf as [Hk1 Hwf]. rewrite IH by done.
  case_decide as Hkk.
  - subst k1. rewrite (get_not_in k d Hk1), Hk. apply get_set_eq.
  - destruct (Dict.get k d); [done|].
    destruct (tags k1) as [n1|] eqn:Hn1; [|done].
    apply get_set_ne. intros ->. by apply Hkk, Hinj.
Qed.

Lemma rename_keys_get (d : list (Z * value)) k name :
  tags k = Some name →
  (∀ k', tags k' = Some name → k' = k) →
  Dict.wf d →
  Dict.get name (rename_keys tags d) = Dict.get k d.
Proof.
  intros. unfold rename_keys. rewrite (rename_keys_acc_get d [] k name) by done.
  by destruct (Dict.get k d).
Qed.

End RenameKeys.

(** [GPSTAGS] names each tag once. *)
Lemma GPSTAGS_inj k k' name :
  Dict.get k GPSTAGS = Some name → Dict.get k' GPSTAGS = Some name → k' = k.
Proof.
  intros H1 H2. apply get_elem_of in H1, H2. unfold GPSTAGS in *.
  repeat (apply elem_of_cons in H1 as [H1|H1]; [injection H1 as -> ->|]);
    try by apply elem_of_nil in H1.
  all: repeat (apply elem_of_cons in H2 as [H2|H2];
               [by (discriminate H2 || (injection H2 as ->))|]).
  all: by apply elem_of_nil in H2.
Qed.

Lemma coords_data_get (gps : list (Z * value)) k name :
  Dict.get k GPSTAGS = Some name →
  Dict.wf gps →
  Dict.get name (rename_keys (λ k, Dict.get k GPSTAGS) gps) = Dict.get k gps.
Proof.
  intros Hk Hwf. apply rename_keys_get; [done| |done].
  intros k' Hk'. by apply (GPSTAGS_inj k k' name).
Qed.


(** ** Coordinates *)



(** C10: on a GPS block none of whose keys is in [GPSTAGS], the guarded
    block of [get_image_coords] is skipped and the [return] fails on the
    unbound local [lat]: an [UnboundLocalError], not a triple. *)
Theorem get_image_coords_unrecognised_keys (W : World)
    (gps_info : list (Z * value)) :
  (∀ k v, (k, v) ∈ gps_info → Dict.get k GPSTAGS = None) →
  get_image_coords W (VDict gps_info) = Raise UnboundLocalError.
Proof.
  intros Hkeys. unfold get_image_coords, mbind, result_bind.
  by rewrite (rename_keys_unrecognised _ gps_info Hkeys).
Qed.

Lemma get_image_coords_unrecognised_keys_witness :
  get_image_coords Sample.online (VDict [(99, VNum 1); (-4, VStr "N")])
  = Raise UnboundLocalError.
Proof.
  apply get_image_coords_unrecognised_keys.
  intros k v Hin.
  repeat (apply elem_of_cons in Hin as [[= -> ->]|Hin]; [reflexivity|]).
  by apply elem_of_nil in Hin.
Defined.

Lemma get_image_coords_recognised (W : World) (gps : list (Z * value))
    (dla mla sla dlo mlo slo a : Q) :
  Dict.wf gps →
  Dict.get 2 gps = Some (VTuple [VNum dla; VNum mla; VNum sla]) →
  Dict.get 4 gps = Some (VTuple [VNum dlo; VNum mlo; VNum slo]) →
  Dict.get 6 gps = Some (VNum a) →
  get_image_coords W (VDict gps)
  = Ok (let lat := (dla + mla / 60 + sla / 3600)%Q in
        if negb (eq_str (from_none (Dict.get 1 gps)) "N")
        then (lat * -1)%Q else lat,
        let lon := (dlo + mlo / 60 + slo / 3600)%Q in
        if negb (eq_str (from_none (Dict.get 3 gps)) "E")
        then (lon * -1)%Q else lon,
        round_half_even a).
Proof.
  intros Hwf Hlat Hlon Halt. unfold get_image_coords, mbind, result_bind.
  assert (Hne : rename_keys (λ k, Dict.get k GPSTAGS) gps ≠ []).
  { eapply get_some_nonempty.
    rewrite (coords_data_get gps 2 "GPSLatitude") by done. apply Hlat. }
  rewrite bool_decide_eq_false_2 by done. cbn [negb].
  rewrite (coords_data_get gps 2 "GPSLatitude"), Hlat by done.
  rewrite (coords_data_get gps 4 "GPSLongitude"), Hlon by done.
  rewrite (coords_data_get gps 6 "GPSAltitude"), Halt by done.
  rewrite (coords_data_get gps 1 "GPSLatitudeRef") by done.
  rewrite (coords_data_get gps 3 "GPSLongitudeRef") by done.
  reflexivity.
Qed.



(** ** Rendering *)






(** ** [show_image], step by step *)

Lemma draw_eq filepath image image_date image_alt image_loc s :
  draw filepath (last_component os_sep filepath) image image_date image_alt
    image_loc s
  = match thumbnail_size (screen_w s) (screen_h s) (width image)
            (height image) with
    | Raise e => (Raise e, s)
    | Ok size =>
        match load image with
        | Raise e => (Raise e, s)
        | Ok _ =>
            (Ok (), drawn filepath image image_date image_alt image_loc size s)
        end
    end.
Proof.
  unfold draw, mbind, M_bind, gets, lift, modify.
  destruct (thumbnail_size _ _ _ _) as [size|e]; [|done].
  destruct (load image) as [[]|e]; done.
Qed.

Lemma drawn_frame filepath image image_date image_alt image_loc size s :
  let s' := drawn filepath image image_date image_alt image_loc size s in
  requests s' = requests s ∧ timers s' = timers s
  ∧ image_list s' = image_list s ∧ current_id s' = current_id s
  ∧ screen_w s' = screen_w s ∧ screen_h s' = screen_h s.
Proof. done. Qed.

Lemma draw_frame filepath image image_date image_alt image_loc s :
  let s' := (draw filepath (last_component os_sep filepath) image image_date
               image_alt image_loc s).2 in
  requests s' = requests s ∧ timers s' = timers s
  ∧ image_list s' = image_list s ∧ current_id s' = current_id s.
Proof.
  rewrite draw_eq. destruct (thumbnail_size _ _ _ _); [|done].
  destruct (load image); done.
Qed.

Lemma draw_raise_state filepath image image_date image_alt image_loc s e s' :
  draw filepath (last_component os_sep filepath) image image_date image_alt
    image_loc s = (Raise e, s') → s' = s.
Proof.
  rewrite draw_eq. destruct (thumbnail_size _ _ _ _); [|congruence].
  destruct (load image); congruence.
Qed.

Section ShowImage.
Variable W : World.

Lemma show_image_no_gps path s img data :
  image_open W path = Ok img →
  parse_image_data W img = Ok data →
  truthy (from_none (Dict.get "GPSInfo" data)) = false →
  show_image W path s
  = match get_image_date W path
            (default (from_none (Dict.get "DateTime" data))
               (Dict.get "DateTimeOriginal" data)) with
    | Raise e => (Raise e, s)
    | Ok date =>
        draw path (last_component os_sep path) img date None placeholder s
    end.
Proof.
  intros Hopen Hparse Hgps. unfold show_image, mbind at 1 2 3, M_bind, lift.
  rewrite Hopen, Hparse. destruct (get_image_date _ _ _) as [date|e]; [|done].
  by rewrite Hgps.
Qed.

Lemma show_image_gps path s img data date coords :
  image_open W path = Ok img →
  parse_image_data W img = Ok data →
  get_image_date W path
    (default (from_none (Dict.get "DateTime" data))
       (Dict.get "DateTimeOriginal" data)) = Ok date →
  truthy (from_none (Dict.get "GPSInfo" data)) = true →
  get_image_coords W (from_none (Dict.get "GPSInfo" data)) = Ok coords →
  show_image W path s
  = match get_image_location W coords.1.1 coords.1.2 s with
    | (Raise e, s1) => (Raise e, s1)
    | (Ok loc, s1) =>
        draw path (last_component os_sep path) img date
          (Some ("Altitude : " +:+ str_of_int coords.2 +:+ "m")) loc s1
    end.
Proof.
  intros Hopen Hparse Hdate Hgps Hcoords.
  unfold show_image, mbind at 1 2 3, M_bind, lift.
  rewrite Hopen, Hparse, Hdate, Hgps, Hcoords.
  unfold mbind, M_bind, lift.
  destruct (get_image_location _ _ _ s) as [[loc|e] s1]; done.
Qed.

Lemma get_image_location_eq lat lon s :
  get_image_location W lat lon s
  = (req ← requests_get W (length (requests s)) (request_url W lat lon);
     location_of req,
     set_requests (requests s ++ [request_url W lat lon]) s).
Proof.
  unfold get_image_location, mbind at 1 2 3, M_bind, gets, modify, lift.
  fold (request_url W lat lon).
  by destruct (requests_get W _ _).
Qed.

Lemma start_slideshow_eq delay s path :
  image_list s !! current_id s = Some path →
  start_slideshow W delay s
  = match show_image W path
            (set_current_id ((current_id s + 1) mod length (image_list s))%nat
               s) with
    | (Ok _, s') =>
        (Ok (), set_timers (timers s' ++ [(delay * 1000, StartSlideshow)]) s')
    | (Raise e, s') => (Raise e, s')
    end.
Proof.
  intros Hpath.
  unfold start_slideshow, select_and_advance, mbind, M_bind, gets, lift, modify,
    mret, M_ret.
  rewrite Hpath. simpl. by destruct (show_image W path _) as [[[]|e] s'].
Qed.

End ShowImage.




(** ** The overlay without a GPS block *)

(** C3, as the code has it: when the extracted metadata contains no GPS
    block, no request is sent to the geocoder, the location text is the
    fixed placeholder ["Lieu non défini"] and the altitude text is
    absent. *)
Theorem no_gps_block_overlay (W : World) path s img data :
  let date := get_image_date W path
                (default (from_none (Dict.get "DateTime" data))
                   (Dict.get "DateTimeOriginal" data)) in
  let size := thumbnail_size (screen_w s) (screen_h s) (width img)
                (height img) in
  let r := (show_image W path s).1 in
  let s' := (show_image W path s).2 in
  image_open W path = Ok img →
  parse_image_data W img = Ok data →
  Dict.get "GPSInfo" data = None →
  requests s' = requests s
  ∧ (r = Ok () →
     canvas s' !! 2%nat
     = Some (CanvasText 20%Q (inject_Z (screen_h s - 10))
               (Some "Lieu non défini") "sw")
     ∧ canvas s' !! 3%nat
       = Some (CanvasText 20%Q (inject_Z (screen_h s - 10)) None "sw"))
  ∧ (is_ok date = true → is_ok size = true → is_ok (load img) = true →
     r = Ok ()).
Proof.
  intros date size r s' Hopen Hparse Hgps. subst r s'.
  rewrite (show_image_no_gps W path s img data) by (by rewrite ?Hgps).
  fold date. destruct date as [d|e]; [|done].
  rewrite draw_eq. fold size. destruct size as [sz|e]; [|done].
  destruct (load img) as [[]|e]; done.
Qed.

Lemma no_gps_block_overlay_witness :
  let s := init Sample.online "img/" in
  let s' := (show_image Sample.online "img/b.PNG" s).2 in
  requests s' = requests s
  ∧ canvas s' !! 2%nat
    = Some (CanvasText 20%Q 1070%Q (Some "Lieu non défini") "sw")
  ∧ canvas s' !! 3%nat = Some (CanvasText 20%Q 1070%Q None "sw").
Proof.
  intros s s'.
  destruct (no_gps_block_overlay Sample.online "img/b.PNG" s
              (Image 800 600 (Ok None) (Ok ())) [])
    as (Hreq & Hcanvas & Hok); [reflexivity..|].
  split; [exact Hreq|]. apply Hcanvas, Hok; reflexivity.
Defined.

(** C3, as stated, fails: the text drawn for an image without a GPS
    block is not ["no location set"]. *)
Lemma placeholder_is_not_no_location_set :
  let s := init Sample.online "img/" in
  let s' := (show_image Sample.online "img/b.PNG" s).2 in
  parse_image_data Sample.online (Image 800 600 (Ok None) (Ok ())) = Ok []
  ∧ (show_image Sample.online "img/b.PNG" s).1 = Ok ()
  ∧ ∃ x y text anchor,
      canvas s' !! 2%nat = Some (CanvasText x y (Some text) anchor)
      ∧ text ≠ "no location set".
Proof.
  split_and!; [reflexivity..|]. do 4 eexists. split; [reflexivity|done].
Qed.

(** ** The timer loop *)

(** C9: when the scan finds no image, the sequence is empty, the first
    [start_slideshow] raises [IndexError] before anything is shown or
    scheduled, the select-and-advance step yields no element and leaves
    the state as it was, and the event loop has nothing to run. *)
Theorem empty_directory_fails_at_startup (W : World) dir delay :
  let s := init W dir in
  discover (os_walk W (directory s)) = [] →
  image_list s = []
  ∧ select_and_advance s = (Raise IndexError, s)
  ∧ start_slideshow W delay s = (Raise IndexError, s)
  ∧ canvas s = [] ∧ timers s = [] ∧ current_image s = None
  ∧ ∀ n, mainloop W n s = ([], s).
Proof.
  intros s Hnone.
  assert (Hl : image_list s = []).
  { simpl in *. by rewrite Hnone. }
  split_and!; try done.
  - unfold select_and_advance, mbind, M_bind, gets, lift. by rewrite Hl.
  - unfold start_slideshow, select_and_advance, mbind, M_bind, gets, lift.
    by rewrite Hl.
  - by intros [|n].
Qed.

Lemma empty_directory_fails_at_startup_witness :
  start_slideshow Sample.online 2 (init Sample.online "empty/")
  = (Raise IndexError, init Sample.online "empty/").
Proof.
  apply (empty_directory_fails_at_startup Sample.online "empty/" 2).
  reflexivity.
Defined.

(** C4, on the sample directory started with a delay of 2 seconds: the
    first tick is scheduled after 2000 ms, every later one after the
    4000 ms of the default, the callback being registered without its
    argument. *)
Theorem configured_delay_not_kept :
  let s := (start_slideshow Sample.online 2 (init Sample.online "img/")).2 in
  timers s = [(2000, StartSlideshow)]
  ∧ (mainloop Sample.online 3 s).1 = [2000; 4000; 4000].
Proof. split; by vm_compute. Qed.

Lemma callback_uses_default_delay (W : World) s s' :
  call W StartSlideshow s = (Ok (), s') →
  ∃ t : list (Z * callback), timers s' = (t ++ [(4000, StartSlideshow)])%list.
Proof.
  unfold call, start_slideshow, mbind at 1 2, M_bind, modify.
  destruct (select_and_advance s) as [[path|e] s1]; [|done].
  destruct (show_image W path s1) as [[[]|e] s2]; [|done].
  intros [= <-]. by eexists.
Qed.

(** ** A failing geocoder *)

Lemma lookup_failure_raises (r : result response) (e : exn) :
  lookup_failure r e → (req ← r; location_of req) = Raise e.
Proof.
  destruct 1 as [e|e|o Hd|o Hd|o first rest Hd Hn|o first rest n Hd Hn Hl];
    try done; unfold location_of, first_result; simpl.
  - by rewrite Hd.
  - by rewrite Hd.
  - rewrite Hd. simpl. by rewrite Hn.
  - rewrite Hd. simpl. rewrite Hn. simpl. by rewrite Hl.
Qed.

Lemma start_slideshow_lookup_raises (W : World) delay s path img data date
    coords e :
  let s0 := set_current_id
              ((current_id s + 1) mod length (image_list s))%nat s in
  let url := request_url W coords.1.1 coords.1.2 in
  image_list s !! current_id s = Some path →
  image_open W path = Ok img →
  parse_image_data W img = Ok data →
  get_image_date W path
    (default (from_none (Dict.get "DateTime" data))
       (Dict.get "DateTimeOriginal" data)) = Ok date →
  truthy (from_none (Dict.get "GPSInfo" data)) = true →
  get_image_coords W (from_none (Dict.get "GPSInfo" data)) = Ok coords →
  (req ← requests_get W (length (requests s)) url; location_of req) = Raise e →
  get_image_location W coords.1.1 coords.1.2 s0
  = (Raise e, set_requests (requests s ++ [url]) s0)
  ∧ show_image W path s0 = (Raise e, set_requests (requests s ++ [url]) s0)
  ∧ start_slideshow W delay s
    = (Raise e, set_requests (requests s ++ [url]) s0).
Proof.
  intros s0 url Hpath Hopen Hparse Hdate Hgps Hcoords Hfail.
  assert (Hloc : get_image_location W coords.1.1 coords.1.2 s0
                 = (Raise e, set_requests (requests s ++ [url]) s0)).
  { rewrite get_image_location_eq. fold url. by rewrite <- Hfail. }
  assert (Hshow : show_image W path s0
                  = (Raise e, set_requests (requests s ++ [url]) s0)).
  { rewrite (show_image_gps W path s0 img data date coords) by done.
    by rewrite Hloc. }
  split_and!; [done..|].
  rewrite (start_slideshow_eq W delay s path) by done. fold s0.
  by rewrite Hshow.
Qed.

(** C2, as the code has it: in a tick whose geocoding lookup fails (the
    request raises, the result set is empty, or the answer lacks the
    [data], [name] or [locality] field), [get_image_location] raises; the
    exception leaves [show_image] and [start_slideshow] as it is, nothing
    is drawn and no next tick is scheduled. *)
Theorem geocoding_failure_propagates (W : World) delay s path img data date
    coords e :
  let s0 := set_current_id
              ((current_id s + 1) mod length (image_list s))%nat s in
  let url := request_url W coords.1.1 coords.1.2 in
  let tick := start_slideshow W delay s in
  image_list s !! current_id s = Some path →
  image_open W path = Ok img →
  parse_image_data W img = Ok data →
  get_image_date W path
    (default (from_none (Dict.get "DateTime" data))
       (Dict.get "DateTimeOriginal" data)) = Ok date →
  truthy (from_none (Dict.get "GPSInfo" data)) = true →
  get_image_coords W (from_none (Dict.get "GPSInfo" data)) = Ok coords →
  lookup_failure (requests_get W (length (requests s)) url) e →
  (get_image_location W coords.1.1 coords.1.2 s0).1 = Raise e
  ∧ (show_image W path s0).1 = Raise e
  ∧ tick.1 = Raise e
  ∧ timers tick.2 = timers s
  ∧ canvas tick.2 = canvas s
  ∧ current_image tick.2 = current_image s.
Proof.
  intros s0 url tick Hpath Hopen Hparse Hdate Hgps Hcoords Hfail.
  apply lookup_failure_raises in Hfail.
  destruct (start_slideshow_lookup_raises W delay s path img data date coords e)
    as (Hloc & Hshow & Htick); [done..|].
  subst tick. fold s0 url in Hloc, Hshow, Htick.
  by rewrite Hloc, Hshow, Htick.
Qed.

Lemma geocoding_failure_propagates_witness :
  let s := set_current_id 2 (init Sample.offline "img/") in
  let tick := start_slideshow Sample.offline 2 s in
  tick.1 = Raise ConnectionError ∧ timers tick.2 = [] ∧ canvas tick.2 = [].
Proof.
  intros s tick.
  destruct (geocoding_failure_propagates Sample.offline 2 s "img/a.jpg"
              (Image 4000 3000
                 (Ok (Some [(271, VStr "Cam");
                            (36867, VStr "2021:05:10 14:30:00");
                            (34853, VDict Sample.gps)])) (Ok ()))
              [("Make", VStr "Cam");
               ("DateTimeOriginal", VStr "2021:05:10 14:30:00");
               ("GPSInfo", VDict Sample.gps)]
              "10/05/2021 14:30:00"
              ((-1055341440 # 21600000)%Q, (495600 # 216000)%Q, 36)
              ConnectionError)
    as (_ & _ & Htick & Htimers & Hcanvas & _);
    [reflexivity|reflexivity|reflexivity|reflexivity|reflexivity|reflexivity| |].
  - apply network_failure.
  - split_and!; [exact Htick|exact Htimers|exact Hcanvas].
Defined.

(** C2, as stated, fails: with the geocoder unreachable, answering with
    no result or answering without the [data] field, the tick on the
    geolocated image raises, draws nothing and schedules nothing, where
    the same tick with a working geocoder schedules the next one. *)
Lemma geocoding_failure_aborts_tick :
  let tick W := start_slideshow W 2 (set_current_id 2 (init W "img/")) in
  ((tick Sample.offline).1 = Raise ConnectionError
   ∧ timers (tick Sample.offline).2 = []
   ∧ canvas (tick Sample.offline).2 = [])
  ∧ ((tick Sample.no_result).1 = Raise IndexError
     ∧ timers (tick Sample.no_result).2 = []
     ∧ canvas (tick Sample.no_result).2 = [])
  ∧ ((tick Sample.malformed).1 = Raise KeyError
     ∧ timers (tick Sample.malformed).2 = []
     ∧ canvas (tick Sample.malformed).2 = [])
  ∧ ((tick Sample.online).1 = Ok ()
     ∧ timers (tick Sample.online).2 = [(2000, StartSlideshow)]).
Proof. by vm_compute. Qed.

(** ** Dates *)

Lemma range_Forall (P : Z → Prop) (lo n : Z) :
  Forall P (seqZ lo n) → ∀ i, lo ≤ i < lo + n → P i.
Proof.
  intros HP i Hi. rewrite Forall_forall in HP. apply HP.
  apply elem_of_seqZ. lia.
Qed.

Ltac each_in_range lo n :=
  match goal with |- ∀ i, _ → @?P i => apply (range_Forall P lo n) end;
  let l := eval vm_compute in (seqZ lo n) in
  change (seqZ lo n) with l;
  repeat (apply Forall_cons_2; [|]); [..|apply Forall_nil_2].

Ltac eval_pad2 :=
  repeat match goal with
         | |- context [pad2 ?n] =>
             let v := eval vm_compute in (pad2 n) in
             change (pad2 n) with v
         | H : context [pad2 ?n] |- _ =>
             let v := eval vm_compute in (pad2 n) in
             change (pad2 n) with v in H
         end.

(** A field written on two digits is matched whole by its directive. *)
Ltac field_matched :=
  cbv beta; intros ? ? ? Hk; eval_pad2; cbv; by rewrite Hk.

Section Fields.
Context {A : Type}.
Implicit Types (rest : string) (k : string → string → option A).

Lemma alt_m n : 1 ≤ n < 1 + 12 →
  ∀ rest k r, k (pad2 n) rest = Some r →
  Re.alt Re.m (String (digit (n / 10)) (String (digit n) rest)) k = Some r.
Proof. revert n. each_in_range 1 12; field_matched. Qed.

Lemma alt_d n : 1 ≤ n < 1 + 31 →
  ∀ rest k r, k (pad2 n) rest = Some r →
  Re.alt Re.d (String (digit (n / 10)) (String (digit n) rest)) k = Some r.
Proof. revert n. each_in_range 1 31; field_matched. Qed.

Lemma alt_H n : 0 ≤ n < 0 + 24 →
  ∀ rest k r, k (pad2 n) rest = Some r →
  Re.alt Re.H (String (digit (n / 10)) (String (digit n) rest)) k = Some r.
Proof. revert n. each_in_range 0 24; field_matched. Qed.

Lemma alt_M n : 0 ≤ n < 0 + 60 →
  ∀ rest k r, k (pad2 n) rest = Some r →
  Re.alt Re.M (String (digit (n / 10)) (String (digit n) rest)) k = Some r.
Proof. revert n. each_in_range 0 60; field_matched. Qed.

Lemma alt_S n : 0 ≤ n < 0 + 60 →
  ∀ rest k r, k (pad2 n) rest = Some r →
  Re.alt Re.S (String (digit (n / 10)) (String (digit n) rest)) k = Some r.
Proof. revert n. each_in_range 0 60; field_matched. Qed.

Lemma d09_digit n : Re.d09 (digit n) = true.
Proof.
  unfold digit. generalize (n mod 10) (Z.mod_pos_bound n 10 eq_refl).
  each_in_range 0 10; done.
Qed.

Lemma is_space_digit n : Re.is_space (digit n) = false.
Proof.
  unfold digit. generalize (n mod 10) (Z.mod_pos_bound n 10 eq_refl).
  each_in_range 0 10; done.
Qed.

Lemma alt_Y y rest k r :
  k (pad4 y) rest = Some r →
  Re.alt Re.Y
    (String (digit (y / 1000)) (String (digit (y / 100))
       (String (digit (y / 10)) (String (digit y) rest)))) k = Some r.
Proof.
  intros Hk. unfold pad4, pad2 in Hk.
  cbv [Re.alt Re.Y Re.classes]. rewrite !d09_digit. by rewrite Hk.
Qed.

End Fields.

Lemma bounded_check (f : Z → bool) (lo n : Z) :
  forallb f (seqZ lo n) = true → ∀ i, lo ≤ i < lo + n → f i = true.
Proof.
  intros Hf i Hi. rewrite forallb_forall in Hf. apply Hf.
  apply list_elem_of_In, elem_of_seqZ. lia.
Qed.

Lemma py_int_pad2 n : 0 ≤ n < 0 + 100 → py_int (pad2 n) = n.
Proof.
  intros Hn. apply Z.eqb_eq.
  apply (bounded_check (λ n, py_int (pad2 n) =? n) 0 100); [|done].
  vm_compute. reflexivity.
Qed.

Lemma digit_val_digit k : digit_val (digit k) = k mod 10.
Proof.
  unfold digit. generalize (k mod 10) (Z.mod_pos_bound k 10 eq_refl).
  each_in_range 0 10; done.
Qed.

Lemma py_int_digit k s :
  py_int (String (digit k) s) = int_of_digits (String (digit k) s).
Proof.
  unfold digit. generalize (k mod 10) (Z.mod_pos_bound k 10 eq_refl).
  each_in_range 0 10; done.
Qed.

Lemma py_int_pad4 n : 0 ≤ n < 0 + 10000 → py_int (pad4 n) = n.
Proof.
  intros Hn. unfold pad4, pad2. rewrite py_int_digit.
  unfold int_of_digits. simpl. rewrite !digit_val_digit.
  pose proof (Z.div_mod n 10 ltac:(lia)).
  pose proof (Z.div_mod (n / 10) 10 ltac:(lia)).
  pose proof (Z.div_mod (n / 10 / 10) 10 ltac:(lia)).
  pose proof (Z.mod_pos_bound n 10 ltac:(lia)).
  assert (n / 100 = n / 10 / 10) as -> by (by rewrite Z.div_div by lia).
  assert (n / 1000 = n / 10 / 10 / 10) as -> by (by rewrite !Z.div_div by lia).
  assert (n / 10 / 10 / 10 < 10).
  { apply Z.div_lt_upper_bound; [lia|]. apply Z.div_lt_upper_bound; [lia|].
    apply Z.div_lt_upper_bound; lia. }
  assert (0 ≤ n / 10 / 10 / 10) by (repeat apply Z.div_pos; lia).
  rewrite (Z.mod_small (n / 10 / 10 / 10)) by lia. lia.
Qed.








(** ** The sequencer *)

Section Sequencer.
Local Open Scope nat_scope.

Lemma insert_Permutation_cons {A} (x : list A) j a b :
  x !! j = Some b → b :: <[j:=a]> x ≡ₚ a :: x.
Proof.
  revert j. induction x as [|c x IH]; intros [|j] Hj; simplify_eq/=.
  - apply Permutation_swap.
  - rewrite (Permutation_swap c b), (IH j Hj). apply Permutation_swap.
Qed.

Lemma swap_Permutation {A} i j (x : list A) : swap i j x ≡ₚ x.
Proof.
  unfold swap. destruct (x !! i) as [a|] eqn:Hi; [|done].
  destruct (x !! j) as [b|] eqn:Hj; [|done].
  destruct (decide (i = j)) as [->|Hne].
  - simplify_eq. by rewrite !list_insert_id by (by rewrite ?list_insert_id).
  - apply (inj (cons b)).
    rewrite insert_Permutation_cons
      by (by rewrite list_lookup_insert_ne).
    by apply insert_Permutation_cons.
Qed.

Lemma shuffle_loop_Permutation {A} rnd i call (x : list A) :
  shuffle_loop rnd i call x ≡ₚ x.
Proof.
  revert call x. induction i as [|i IH]; intros call x; simpl; [done|].
  by rewrite IH, swap_Permutation.
Qed.

Lemma shuffle_Permutation {A} rnd (x : list A) : shuffle rnd x ≡ₚ x.
Proof. apply shuffle_loop_Permutation. Qed.

Lemma init_image_list (W : World) dir :
  image_list (init W dir)
  = shuffle (random_bits W) (discover (os_walk W (directory (init W dir))))
  ∧ current_id (init W dir) = 0.
Proof. done. Qed.

Lemma select_and_advance_eq s path :
  image_list s !! current_id s = Some path →
  select_and_advance s
  = (Ok path,
     set_current_id ((current_id s + 1) mod length (image_list s)) s).
Proof.
  intros Hpath.
  unfold select_and_advance, mbind, M_bind, gets, lift, modify, mret, M_ret.
  by rewrite Hpath.
Qed.

Lemma nexts_spec (l : list string) j :
  ∀ s, image_list s = l → current_id s < length l →
  length (nexts j s).1 = j
  ∧ (∀ i, i < j →
       (nexts j s).1 !! i = l !! ((current_id s + i) mod length l))
  ∧ (nexts j s).2 = set_current_id ((current_id s + j) mod length l) s.
Proof.
  induction j as [|j IH]; intros s Hl Hc.
  - simpl. split_and!; [done|lia|].
    rewrite Nat.add_0_r, Nat.mod_small by done. by destruct s.
  - destruct (lookup_lt_is_Some_2 l (current_id s) Hc) as [path Hpath].
    simpl. rewrite (select_and_advance_eq s path) by (by rewrite Hl).
    rewrite Hl.
    set (s1 := set_current_id ((current_id s + 1) mod length l) s).
    destruct (IH s1) as (Hlen & Hshown & Hstate); [done| |].
    { simpl. apply Nat.mod_upper_bound. lia. }
    destruct (nexts j s1) as [shown s2]. simpl in *.
    split_and!.
    + by rewrite Hlen.
    + intros [|i] Hi; simpl.
      * by rewrite Nat.add_0_r, Nat.mod_small.
      * rewrite Hshown by lia. f_equal.
        rewrite Nat.Div0.add_mod_idemp_l. f_equal. lia.
    + rewrite Hstate. unfold s1, set_current_id. simpl. f_equal.
      rewrite Nat.Div0.add_mod_idemp_l. f_equal. lia.
Qed.

End Sequencer.

(** C1: the sequence built from a non-empty set of paths is a
    permutation of it; each call of the select-and-advance step returns
    the path at the cursor and moves the cursor by one modulo the length;
    the first [n] calls return the sequence itself, every path once, and
    the i-th call of any run returns the path at [i mod n] of the same
    sequence, which is never reshuffled. *)
Theorem cycle_completeness (W : World) dir :
  let s := init W dir in
  let paths := discover (os_walk W (directory s)) in
  let n := length paths in
  NoDup paths → paths ≠ [] →
  image_list s ≡ₚ paths ∧ NoDup (image_list s) ∧ current_id s = 0%nat
  ∧ (∀ s' path,
       image_list s' !! current_id s' = Some path →
       select_and_advance s'
       = (Ok path,
          set_current_id ((current_id s' + 1) mod length (image_list s'))%nat
            s'))
  ∧ (nexts n s).1 = image_list s
  ∧ (∀ j,
       length (nexts j s).1 = j
       ∧ (∀ i, (i < j)%nat →
            (nexts j s).1 !! i = image_list s !! (i mod n)%nat)
       ∧ current_id (nexts j s).2 = (j mod n)%nat
       ∧ image_list (nexts j s).2 = image_list s).
Proof.
  intros s paths n Hnodup Hne.
  destruct (init_image_list W dir) as [Hl Hc]. fold s paths in Hl, Hc.
  assert (Hperm : image_list s ≡ₚ paths).
  { rewrite Hl. apply shuffle_Permutation. }
  assert (Hlen : length (image_list s) = n) by (by rewrite Hperm).
  assert (Hn : (0 < n)%nat).
  { unfold n. destruct paths; [done|simpl; lia]. }
  assert (Hspec : ∀ j,
            length (nexts j s).1 = j
            ∧ (∀ i, (i < j)%nat →
                 (nexts j s).1 !! i = image_list s !! (i mod n)%nat)
            ∧ current_id (nexts j s).2 = (j mod n)%nat
            ∧ image_list (nexts j s).2 = image_list s).
  { intros j.
    destruct (nexts_spec (image_list s) j s) as (H1 & H2 & H3);
      [done|lia|].
    rewrite Hlen, Hc in *. split_and!; [done|done|by rewrite H3..]. }
  split_and!; [done|by rewrite Hperm|done| | |done].
  - intros s' path. apply select_and_advance_eq.
  - destruct (Hspec n) as (H1 & H2 & _).
    apply list_eq. intros i. destruct (decide (i < n)%nat).
    + rewrite H2 by done. by rewrite Nat.mod_small.
    + rewrite !(lookup_ge_None_2 _ i); [done|lia|lia].
Qed.

Lemma cycle_completeness_witness :
  let s := init Sample.online "img/" in
  image_list s ≡ₚ ["img/a.jpg"; "img/b.PNG"; "img/sub/c.jpeg"]
  ∧ (nexts 3 s).1 = image_list s
  ∧ (nexts 7 s).1 !! 6%nat = image_list s !! 0%nat.
Proof.
  intros s.
  destruct (cycle_completeness Sample.online "img/")
    as (Hperm & _ & _ & _ & Hcycle & Hreplay).
  - apply (bool_decide_unpack _). by vm_compute.
  - discriminate.
  - split_and!; [exact Hperm|exact Hcycle|].
    destruct (Hreplay 7%nat) as (_ & Hshown & _).
    apply (Hshown 6%nat). lia.
Defined.

(** ** The model at work on the sample directory *)

Example str_of_int_ex :
  str_of_int 35 = "35" ∧ str_of_int (-1204) = "-1204" ∧ str_of_int 0 = "0".
Proof. by vm_compute. Qed.

Example round_half_even_ex :
  round_half_even (5 # 2) = 2 ∧ round_half_even (7 # 2) = 4
  ∧ round_half_even (357 # 10) = 36 ∧ round_half_even (-5 # 2) = -2.
Proof. by vm_compute. Qed.

Example strptime_rejects :
  strptime "2021:02:29 14:30:00" = Raise ValueError
  ∧ strptime "2021-05-10 14:30:00" = Raise ValueError
  ∧ strptime "2021:05:10 14:30:00 " = Raise ValueError
  ∧ strptime "2021:5:1   4:3:0" = Ok (Datetime 2021 5 1 4 3 0).
Proof. by vm_compute. Qed.

Example thumbnail_size_ex :
  thumbnail_size 1920 1080 800 600 = Ok (800, 600)
  ∧ thumbnail_size 1920 1080 4000 3000 = Ok (1440, 1080)
  ∧ thumbnail_size 1920 1080 1000 3000 = Ok (360, 1080)
  ∧ thumbnail_size 2 2 3 2 = Ok (2, 1).
Proof. by vm_compute. Qed.

Example init_ex :
  image_list (init Sample.online "img/")
  = ["img/b.PNG"; "img/sub/c.jpeg"; "img/a.jpg"].
Proof. by vm_compute. Qed.

Example show_image_geolocated :
  let s := (show_image Sample.online "img/a.jpg"
              (init Sample.online "img/")).2 in
  canvas s
  = [CanvasImage (1920 # 2) (1080 # 2) "center"
       (PhotoImage "img/a.jpg" (1440, 1080));
     CanvasText 20%Q 10%Q (Some "10/05/2021 14:30:00") "nw";
     CanvasText 20%Q 1050%Q (Some "Tour Eiffel, Paris") "sw";
     CanvasText 20%Q 1070%Q (Some "Altitude : 36m") "sw";
     CanvasText 1900%Q 1070%Q (Some "a.jpg") "se"]
  ∧ requests s
    = ["http://api.positionstack.com/v1/reverse?access_key=k&query=-49,2&limit=1"].
Proof. by vm_compute. Qed.

Example show_image_unrecognised_gps_keys :
  (show_image Sample.online "other/d.jpg" (init Sample.online "img/")).1
  = Raise UnboundLocalError.
Proof. by vm_compute. Qed.

(** * Further properties of [slide.py] *)

(** ** Metadata lookup *)

Section DictInvariant.
Context {K V : Type} `{EqDecision K}.
Implicit Types (d : list (K * V)) (k : K) (v : V).

Lemma keys_set k v d :
  Dict.keys (Dict.set k v d)
  = if bool_decide (k ∈ Dict.keys d) then Dict.keys d
    else (Dict.keys d ++ [k])%list.
Proof.
  unfold Dict.keys. induction d as [|[k' v'] d IH]; csimpl; [done|].
  destruct (decide (k' = k)) as [->|Hk]; csimpl.
  - rewrite bool_decide_eq_true_2 by left. done.
  - rewrite IH. case_bool_decide as Hin.
    + rewrite bool_decide_eq_true_2 by (by right). done.
    + rewrite bool_decide_eq_false_2; [done|].
      intros [?|?]%elem_of_cons; congruence.
Qed.

Lemma set_wf k v d : Dict.wf d → Dict.wf (Dict.set k v d).
Proof.
  unfold Dict.wf. intros Hwf. rewrite keys_set. case_bool_decide; [done|].
  apply NoDup_app. split_and!; [done| |apply NoDup_singleton].
  intros x Hx ->%list_elem_of_singleton. done.
Qed.

Lemma get_set_inv k k' v v' d :
  Dict.get k (Dict.set k' v' d) = Some v →
  (k = k' ∧ v = v') ∨ Dict.get k d = Some v.
Proof.
  destruct (decide (k' = k)) as [->|Hne].
  - rewrite get_set_eq. intros [= ->]. by left.
  - rewrite get_set_ne by done. by right.
Qed.

Lemma get_elem_of_inv k v d : Dict.wf d → (k, v) ∈ d → Dict.get k d = Some v.
Proof.
  unfold Dict.wf, Dict.keys.
  induction d as [|[k' v'] d IH]; csimpl; intros Hwf Hin.
  - by apply elem_of_nil in Hin.
  - apply NoDup_cons in Hwf as [Hk' Hwf].
    apply elem_of_cons in Hin as [[= <- <-]|Hin].
    + by case_decide.
    + destruct (decide (k' = k)) as [->|Hk]; [|by apply IH].
      destruct Hk'. apply list_elem_of_fmap. by exists (k, v).
Qed.

End DictInvariant.

Lemma rename_keys_acc_wf (tags : Z → option string) (d : list (Z * value))
    (acc : list (string * value)) :
  Dict.wf acc →
  Dict.wf (fold_left (λ acc kv,
                        match tags kv.1 with
                        | Some name => Dict.set name kv.2 acc
                        | None => acc
                        end) d acc).
Proof.
  revert acc. induction d as [|[k v] d IH]; intros acc Hacc; simpl; [done|].
  apply IH. destruct (tags k); [by apply set_wf|done].
Qed.

Lemma rename_keys_acc_source (tags : Z → option string)
    (d : list (Z * value)) (acc : list (string * value)) name v :
  Dict.get name
    (fold_left (λ acc kv,
                  match tags kv.1 with
                  | Some name => Dict.set name kv.2 acc
                  | None => acc
                  end) d acc) = Some v →
  Dict.get name acc = Some v ∨ ∃ k, (k, v) ∈ d ∧ tags k = Some name.
Proof.
  revert acc. induction d as [|[k v'] d IH]; intros acc Hget; simpl in *;
    [by left|].
  apply IH in Hget as [Hget|(k' & Hin & Hk')].
  - destruct (tags k) as [n|] eqn:Hn; [|by left].
    apply get_set_inv in Hget as [[-> ->]|Hget]; [|by left].
    right. exists k. split; [left|done].
  - right. exists k'. split; [by right|done].
Qed.

(** X1: [parse_image_data] on an image whose [_getexif()] answers never
    fails; without EXIF data it gives the empty mapping; its keys are
    pairwise distinct, every entry comes from an EXIF entry whose tag has
    that name, and a name carried by one tag only maps to the value
    stored under that tag. *)
Theorem parse_image_data_lookup (W : World) (img : image)
    (exif : option (list (Z * value))) :
  _getexif img = Ok exif →
  ∃ data,
    parse_image_data W img = Ok data
    ∧ Dict.wf data
    ∧ (default [] exif = [] → data = [])
    ∧ (∀ name v, Dict.get name data = Some v →
         ∃ k, (k, v) ∈ default [] exif ∧ TAGS W k = Some name)
    ∧ (∀ k name,
         Dict.wf (default [] exif) →
         TAGS W k = Some name →
         (∀ k', TAGS W k' = Some name → k' = k) →
         Dict.get name data = Dict.get k (default [] exif)).
Proof.
  intros Hexif. unfold parse_image_data. rewrite Hexif. simpl.
  exists (rename_keys (TAGS W) (default [] exif)).
  split_and!.
  - by destruct exif as [[|]|].
  - apply rename_keys_acc_wf, NoDup_nil_2.
  - by intros ->.
  - intros name v Hget.
    by apply rename_keys_acc_source in Hget as [?|?].
  - intros k name Hwf Hk Hinj. by apply rename_keys_get.
Qed.

Lemma parse_image_data_lookup_witness :
  ∃ data,
    parse_image_data Sample.online
      (Image 1000 3000 (Ok (Some [(306, VStr "2019:01:02 03:04:05")]))
         (Ok ())) = Ok data
    ∧ Dict.get "DateTime" data = Some (VStr "2019:01:02 03:04:05").
Proof.
  destruct (parse_image_data_lookup Sample.online
              (Image 1000 3000 (Ok (Some [(306, VStr "2019:01:02 03:04:05")]))
                 (Ok ()))
              (Some [(306, VStr "2019:01:02 03:04:05")]))
    as (data & Hparse & _ & _ & _ & Hget); [reflexivity|].
  exists data. split; [exact Hparse|].
  rewrite (Hget 306 "DateTime").
  - reflexivity.
  - apply (bool_decide_unpack _). by vm_compute.
  - reflexivity.
  - intros k' Hk'. simpl in Hk'.
    repeat (case_decide; [congruence|]). discriminate.
Defined.

(** ** Discovery *)

(** X2: [get_images] never raises; it appends the image files found
    under the directory to whatever the list already holds and shuffles
    the whole, so the list it leaves is a permutation of the old list
    followed by the discovered paths, and it touches nothing else. *)
Theorem get_images_appends (W : World) (s : SlideShow) :
  ∃ l,
    get_images W s = (Ok (), set_image_list l s)
    ∧ l ≡ₚ (image_list s ++ discover (os_walk W (directory s)))%list.
Proof.
  eexists. split; [reflexivity|]. apply shuffle_Permutation.
Qed.

Lemma elem_of_discover walk path :
  path ∈ discover walk
  ↔ ∃ root dirs files file,
      (root, dirs, files) ∈ walk ∧ file ∈ files
      ∧ is_image_file file = true ∧ path = os_path_join root file.
Proof.
  unfold discover. rewrite list_elem_of_bind. split.
  - intros ([[root dirs] files] & Hpath & Hwalk).
    apply list_elem_of_fmap in Hpath as (file & -> & Hfile).
    apply list_elem_of_filter in Hfile as [Himg Hfile].
    by exists root, dirs, files, file.
  - intros (root & dirs & files & file & Hwalk & Hfile & Himg & ->).
    exists (root, dirs, files). split; [|done].
    apply list_elem_of_fmap. exists file. split; [done|].
    by apply list_elem_of_filter.
Qed.

(** X3: a path is in the list built by [__init__] exactly when it is
    [os.path.join(root, file)] for a file of the walk whose lower-cased
    name ends in [.jpg], [.jpeg], [.png] or [.gif]: no such file is
    left out and no other file gets in. *)
Theorem discovered_paths (W : World) (dir path : string) :
  path ∈ image_list (init W dir)
  ↔ ∃ root dirs files file,
      (root, dirs, files) ∈ os_walk W (directory (init W dir))
      ∧ file ∈ files
      ∧ existsb (λ x, endswith (lower file) x)
          [".jpg"; ".jpeg"; ".png"; ".gif"] = true
      ∧ path = os_path_join root file.
Proof.
  destruct (init_image_list W dir) as [-> _].
  rewrite shuffle_Permutation. apply elem_of_discover.
Qed.

(** ** Paths *)

Lemma replace_char_absent a b s :
  a ≠ b → a ∉ list_ascii_of_string (replace_char a b s).
Proof.
  intros Hab. induction s as [|c s IH]; simpl.
  - apply not_elem_of_nil.
  - apply not_elem_of_cons. split; [|done].
    destruct (Ascii.eqb_spec c a); congruence.
Qed.

Lemma replace_char_id a b s :
  a ∉ list_ascii_of_string s → replace_char a b s = s.
Proof.
  induction s as [|c s IH]; simpl; [done|].
  intros [Hc Hs]%not_elem_of_cons. rewrite IH by done.
  destruct (Ascii.eqb_spec c a); congruence.
Qed.

Lemma replace_char_same a s : replace_char a a s = s.
Proof.
  induction s as [|c s IH]; simpl; [done|]. rewrite IH.
  by destruct (Ascii.eqb_spec c a) as [->|].
Qed.

Lemma replace_char_length a b s :
  String.length (replace_char a b s) = String.length s.
Proof. induction s as [|c s IH]; simpl; [done|]. by rewrite IH. Qed.

(** X4: the directory kept by [__init__] has the length of the one
    given and holds no backslash: each became the separator; a directory
    that went through [__init__] once goes through it again unchanged. *)
Theorem directory_normalised (W : World) (dir : string) :
  let d := directory (init W dir) in
  ("\"%char ∉ list_ascii_of_string d)
  ∧ String.length d = String.length dir
  ∧ directory (init W d) = d.
Proof.
  intros d.
  assert (Hd : d = replace_char "\" os_sep (replace_char "/" os_sep dir))
    by done.
  clearbody d. subst d. split_and!.
  - by apply replace_char_absent.
  - by rewrite !replace_char_length.
  - assert (∀ d', directory (init W d')
                  = replace_char "\" os_sep (replace_char "/" os_sep d')) as ->
      by done.
    unfold os_sep. rewrite !replace_char_same.
    apply replace_char_id. by apply replace_char_absent.
Qed.

Lemma last_component_no_sep sep s :
  sep ∉ list_ascii_of_string s → last_component sep s = s.
Proof.
  destruct s as [|c s]; simpl; [done|].
  intros [Hc Hs]%not_elem_of_cons.
  rewrite bool_decide_eq_false_2 by done.
  destruct (Ascii.eqb_spec c sep); congruence.
Qed.

Lemma list_ascii_of_string_app s1 s2 :
  list_ascii_of_string (s1 +:+ s2)
  = (list_ascii_of_string s1 ++ list_ascii_of_string s2)%list.
Proof.
  induction s1 as [|c s1 IH]; [done|].
  change (String c s1 +:+ s2) with (String c (s1 +:+ s2)).
  simpl. by rewrite IH.
Qed.

Lemma last_component_after sep a file :
  sep ∉ list_ascii_of_string file →
  last_component sep (a +:+ String sep file) = file.
Proof.
  intros Hfile. induction a as [|c a IH].
  - change ("" +:+ String sep file) with (String sep file). simpl.
    rewrite bool_decide_eq_false_2 by done. by rewrite Ascii.eqb_refl.
  - change (String c a +:+ String sep file)
      with (String c (a +:+ String sep file)).
    simpl. rewrite bool_decide_eq_true_2; [done|].
    rewrite list_ascii_of_string_app. apply elem_of_app. right. left.
Qed.

Lemma string_app_assoc (s1 s2 s3 : string) :
  (s1 +:+ s2) +:+ s3 = s1 +:+ (s2 +:+ s3).
Proof.
  induction s1 as [|c s1 IH]; [done|].
  change (String c ((s1 +:+ s2) +:+ s3) = String c (s1 +:+ (s2 +:+ s3))).
  by rewrite IH.
Qed.

Lemma endswith_sep_inv s :
  endswith s "/" = true → ∃ a, s = a +:+ "/".
Proof.
  unfold endswith. simpl String.length.
  induction s as [|c s IH]; [done|].
  destruct s as [|c' s'].
  - simpl. destruct (Ascii.eqb_spec c "/") as [->|]; [by exists ""|done].
  - intros Heq. destruct IH as [a ->].
    + simpl in *. by rewrite Nat.sub_0_r in *.
    + by exists (String c a).
Qed.

(** X5: the name drawn bottom right is the name of the file itself:
    taking what follows the last separator of [os.path.join(root, file)]
    gives [file] back, whatever the root, for a file name that holds no
    separator. *)
Theorem filename_of_joined_path (root file : string) :
  os_sep ∉ list_ascii_of_string file →
  last_component os_sep (os_path_join root file) = file.
Proof.
  intros Hfile. unfold os_path_join.
  destruct (String.prefix "/" file) eqn:Hprefix.
  { destruct file as [|c file]; [done|]. cbn [String.prefix] in Hprefix.
    destruct (Ascii.ascii_dec "/" c) as [<-|]; [|done].
    destruct Hfile. left. }
  destruct (String.eqb root "") eqn:Hroot; simpl.
  { apply String.eqb_eq in Hroot as ->.
    by apply last_component_no_sep. }
  destruct (endswith root "/") eqn:Hends.
  - apply endswith_sep_inv in Hends as [a ->].
    rewrite string_app_assoc. by apply last_component_after.
  - by apply last_component_after.
Qed.

Lemma filename_of_joined_path_witness :
  last_component os_sep (os_path_join "img/sub" "c.jpeg") = "c.jpeg"
  ∧ last_component os_sep (os_path_join "img/" "a.jpg") = "a.jpg".
Proof.
  split; apply filename_of_joined_path;
    apply (bool_decide_unpack _); by vm_compute.
Defined.

Lemma discovered_paths_witness :
  "img/sub/c.jpeg" ∈ image_list (init Sample.online "img/").
Proof.
  apply (discovered_paths Sample.online "img/" "img/sub/c.jpeg").
  exists "img/sub", [], ["c.jpeg"], "c.jpeg".
  split_and!; [|left|reflexivity|reflexivity].
  apply (bool_decide_unpack _). by vm_compute.
Defined.

(** ** The geocoder *)

(** X6: [get_image_location] sends one request per call, whatever its
    outcome, and changes nothing else; the request is sent even when
    [API_KEY] is not set, the URL then carrying the text [None] as its
    access key. *)
Theorem get_image_location_one_request (W : World) (lat lon : Q)
    (s : SlideShow) :
  (get_image_location W lat lon s).2
  = set_requests (requests s ++ [request_url W lat lon]) s
  ∧ (environ_API_KEY W = None →
     request_url W lat lon
     = "http://api.positionstack.com/v1/reverse?access_key=None&query="
       +:+ str_of_float W lat +:+ "," +:+ str_of_float W lon +:+ "&limit=1").
Proof.
  split; [by rewrite get_image_location_eq|].
  intros Hkey. unfold request_url. by rewrite Hkey.
Qed.

Lemma get_image_location_one_request_witness :
  requests (get_image_location Sample.offline 48 2
              (init Sample.offline "img/")).2
  = ["http://api.positionstack.com/v1/reverse?access_key=k&query=48,2&limit=1"].
Proof.
  destruct (get_image_location_one_request Sample.offline 48 2
              (init Sample.offline "img/")) as [Hstate _].
  rewrite Hstate. reflexivity.
Defined.

(** X7: when the answer holds a [data] list whose first element has
    text [name] and [locality], the place is ["name, locality"] read off
    that first element alone, whatever follows it in the list. *)
Theorem get_image_location_first_result (W : World) (lat lon : Q)
    (s : SlideShow) o first rest n l :
  requests_get W (length (requests s)) (request_url W lat lon)
  = Ok (Response (Ok (JObj o))) →
  Dict.get "data" o = Some (JArr (JObj first :: rest)) →
  Dict.get "name" first = Some (JStr n) →
  Dict.get "locality" first = Some (JStr l) →
  (get_image_location W lat lon s).1 = Ok ((n +:+ ", ") +:+ l).
Proof.
  intros Hreq Hdata Hname Hloc. rewrite get_image_location_eq, Hreq. simpl.
  unfold location_of, first_result. simpl.
  rewrite Hdata. simpl. rewrite Hname. simpl. by rewrite Hloc.
Qed.

Lemma get_image_location_first_result_witness :
  (get_image_location Sample.online 48 2 (init Sample.online "img/")).1
  = Ok "Tour Eiffel, Paris".
Proof.
  apply (get_image_location_first_result Sample.online 48 2
           (init Sample.online "img/")
           [("data", JArr [JObj [("name", JStr "Tour Eiffel");
                                 ("locality", JStr "Paris")]])]
           [("name", JStr "Tour Eiffel"); ("locality", JStr "Paris")] []
           "Tour Eiffel" "Paris"); reflexivity.
Defined.

(** X8: a first result whose [name] or [locality] is present but is not
    a text (a JSON [null], say) makes the concatenation raise
    [TypeError]. *)
Theorem get_image_location_non_text_field (W : World) (lat lon : Q)
    (s : SlideShow) o first rest jn jl :
  requests_get W (length (requests s)) (request_url W lat lon)
  = Ok (Response (Ok (JObj o))) →
  Dict.get "data" o = Some (JArr (JObj first :: rest)) →
  Dict.get "name" first = Some jn →
  Dict.get "locality" first = Some jl →
  (∀ t, jn ≠ JStr t) ∨ (∀ t, jl ≠ JStr t) →
  (get_image_location W lat lon s).1 = Raise TypeError.
Proof.
  intros Hreq Hdata Hname Hloc Hnon. rewrite get_image_location_eq, Hreq.
  simpl. unfold location_of, first_result. simpl.
  rewrite Hdata. simpl. rewrite Hname. simpl.
  destruct jn as [| | |n| |]; try done.
  - simpl. rewrite Hloc. simpl.
    destruct Hnon as [Hn|Hl]; [by destruct (Hn n)|].
    destruct jl as [| | |l| |]; try done. by destruct (Hl l).
Qed.

Lemma get_image_location_non_text_field_witness :
  (get_image_location
     (Sample.world
        (Ok (Response (Ok (JObj [("data",
               JArr [JObj [("name", JStr "A13"); ("locality", JNull)]])])))))
     48 2 (init Sample.online "img/")).1
  = Raise TypeError.
Proof.
  apply (get_image_location_non_text_field _ 48 2 (init Sample.online "img/")
           [("data", JArr [JObj [("name", JStr "A13"); ("locality", JNull)]])]
           [("name", JStr "A13"); ("locality", JNull)] [] (JStr "A13") JNull);
    [reflexivity..|].
  right. discriminate.
Defined.

(** ** What [show_image] leaves behind *)

(** The four ways [show_image] ends. *)
Lemma show_image_cases (W : World) path s :
  (∃ e, show_image W path s = (Raise e, s))
  ∨ (∃ e url,
       show_image W path s
       = (Raise e, set_requests (requests s ++ [url]) s))
  ∨ (∃ img date size,
       show_image W path s
       = (Ok (), drawn path img date None placeholder size s))
  ∨ (∃ img date n loc size url,
       show_image W path s
       = (Ok (),
          drawn path img date
            (Some ("Altitude : " +:+ str_of_int n +:+ "m")) loc size
            (set_requests (requests s ++ [url]) s))).
Proof.
  destruct (image_open W path) as [img|e] eqn:Hopen;
    [|left; exists e;
      by unfold show_image, mbind, M_bind, lift; rewrite Hopen].
  destruct (parse_image_data W img) as [data|e] eqn:Hparse;
    [|left; exists e;
      by unfold show_image, mbind, M_bind, lift; rewrite Hopen, Hparse].
  destruct (get_image_date W path
              (default (from_none (Dict.get "DateTime" data))
                 (Dict.get "DateTimeOriginal" data))) as [date|e] eqn:Hdate;
    [|left; exists e;
      by unfold show_image, mbind, M_bind, lift;
         rewrite Hopen, Hparse, Hdate].
  destruct (truthy (from_none (Dict.get "GPSInfo" data))) eqn:Hgps.
  - destruct (get_image_coords W (from_none (Dict.get "GPSInfo" data)))
      as [coords|e] eqn:Hcoords;
      [|left; exists e;
        by unfold show_image, mbind, M_bind, lift;
           rewrite Hopen, Hparse, Hdate, Hgps, Hcoords].
    rewrite (show_image_gps W path s img data date coords) by done.
    rewrite get_image_location_eq.
    destruct (requests_get W _ _ ≫= _) as [loc|e];
      [|right; left; by eexists _, _].
    rewrite draw_eq. simpl.
    destruct (thumbnail_size _ _ _ _) as [size|e];
      [|right; left; by eexists _, _].
    destruct (load img) as [[]|e]; [|right; left; by eexists _, _].
    right. right. right. by eexists img, date, _, loc, size, _.
  - rewrite (show_image_no_gps W path s img data) by done.
    rewrite Hdate, draw_eq.
    destruct (thumbnail_size _ _ _ _) as [size|e]; [|left; by eexists].
    destruct (load img) as [[]|e]; [|left; by eexists].
    right. right. left. by eexists img, date, size.
Qed.

(** X9: when [show_image] succeeds the canvas holds five items and
    nothing of what it held before: the photo centred, the date top
    left, the location bottom left, the altitude line below it and the
    file name bottom right; the location stands 30 pixels above the
    bottom edge exactly when there is an altitude line, 10 otherwise. *)
Theorem show_image_layout (W : World) path s s' :
  show_image W path s = (Ok (), s') →
  ∃ im date loc alt,
    current_image s' = Some im
    ∧ photo_file im = path
    ∧ canvas s'
      = [CanvasImage (inject_Z (screen_w s) / 2)%Q
           (inject_Z (screen_h s) / 2)%Q "center" im;
         CanvasText 20%Q 10%Q (Some date) "nw";
         CanvasText 20%Q
           (inject_Z (screen_h s - match alt with Some _ => 30 | None => 10 end))
           (Some loc) "sw";
         CanvasText 20%Q (inject_Z (screen_h s - 10)) alt "sw";
         CanvasText (inject_Z (screen_w s - 20)) (inject_Z (screen_h s - 10))
           (Some (last_component os_sep path)) "se"].
Proof.
  intros Hshow.
  destruct (show_image_cases W path s)
    as [[e H]|[(e & url & H)|[(img & date & size & H)
                             |(img & date & n & loc & size & url & H)]]];
    rewrite H in Hshow; try discriminate; injection Hshow as <-.
  - by eexists _, date, placeholder, None.
  - by eexists _, date, loc, (Some _).
Qed.

Lemma show_image_layout_witness :
  ∃ im date loc alt,
    canvas (show_image Sample.online "img/b.PNG"
              (init Sample.online "img/")).2
    = [CanvasImage (inject_Z 1920 / 2)%Q (inject_Z 1080 / 2)%Q "center" im;
       CanvasText 20%Q 10%Q (Some date) "nw";
       CanvasText 20%Q
         (inject_Z (1080 - match alt with Some _ => 30 | None => 10 end))
         (Some loc) "sw";
       CanvasText 20%Q (inject_Z (1080 - 10)) alt "sw";
       CanvasText (inject_Z (1920 - 20)) (inject_Z (1080 - 10))
         (Some "b.PNG") "se"].
Proof.
  destruct (show_image_layout Sample.online "img/b.PNG"
              (init Sample.online "img/")
              (show_image Sample.online "img/b.PNG"
                 (init Sample.online "img/")).2)
    as (im & date & loc & alt & _ & _ & Hcanvas); [reflexivity|].
  exists im, date, loc, alt. exact Hcanvas.
Defined.

(** X10: when [show_image] raises, whatever the cause, the canvas and
    the current photo are what they were: the image shown before stays
    on screen; the list, the cursor and the timers are untouched and at
    most one request was sent. *)
Theorem show_image_failure_keeps_display (W : World) path s e s' :
  show_image W path s = (Raise e, s') →
  canvas s' = canvas s ∧ current_image s' = current_image s
  ∧ image_list s' = image_list s ∧ current_id s' = current_id s
  ∧ timers s' = timers s
  ∧ (requests s' = requests s
     ∨ ∃ url, requests s' = (requests s ++ [url])%list).
Proof.
  intros Hshow.
  destruct (show_image_cases W path s)
    as [[e' H]|[(e' & url & H)|[(img & date & size & H)
                               |(img & date & n & loc & size & url & H)]]];
    rewrite H in Hshow; try discriminate; injection Hshow as <- <-.
  - split_and!; try done. by left.
  - split_and!; try done. right. by exists url.
Qed.

Lemma show_image_failure_keeps_display_witness :
  let s := (show_image Sample.offline "img/b.PNG"
              (init Sample.offline "img/")).2 in
  let s' := (show_image Sample.offline "img/a.jpg" s).2 in
  canvas s' = canvas s ∧ current_image s' = current_image s.
Proof.
  intros s s'.
  destruct (show_image_failure_keeps_display Sample.offline "img/a.jpg" s
              ConnectionError s') as (Hcanvas & Himage & _); [reflexivity|].
  split; [exact Hcanvas|exact Himage].
Defined.

(** X11: for an image with a capture date and a GPS block holding the
    latitude, the longitude and the altitude, a geocoder that answers
    and pixel data that decodes, [show_image] succeeds: the altitude line
    reads ["Altitude : <a>m"] with the altitude rounded to the nearest
    integer (ties to even), the location line is the geocoder's
    ["name, locality"], and one request was sent. *)
Theorem show_image_geolocated_overlay (W : World) path s img data date gps
    dla mla sla dlo mlo slo a o first rest n l size :
  let coords := ((let lat := (dla + mla / 60 + sla / 3600)%Q in
                  if negb (eq_str (from_none (Dict.get 1 gps)) "N")
                  then (lat * -1)%Q else lat),
                 (let lon := (dlo + mlo / 60 + slo / 3600)%Q in
                  if negb (eq_str (from_none (Dict.get 3 gps)) "E")
                  then (lon * -1)%Q else lon)) in
  let url := request_url W coords.1 coords.2 in
  image_open W path = Ok img →
  parse_image_data W img = Ok data →
  get_image_date W path
    (default (from_none (Dict.get "DateTime" data))
       (Dict.get "DateTimeOriginal" data)) = Ok date →
  Dict.get "GPSInfo" data = Some (VDict gps) →
  Dict.wf gps →
  Dict.get 2 gps = Some (VTuple [VNum dla; VNum mla; VNum sla]) →
  Dict.get 4 gps = Some (VTuple [VNum dlo; VNum mlo; VNum slo]) →
  Dict.get 6 gps = Some (VNum a) →
  requests_get W (length (requests s)) url = Ok (Response (Ok (JObj o))) →
  Dict.get "data" o = Some (JArr (JObj first :: rest)) →
  Dict.get "name" first = Some (JStr n) →
  Dict.get "locality" first = Some (JStr l) →
  thumbnail_size (screen_w s) (screen_h s) (width img) (height img)
  = Ok size →
  load img = Ok () →
  show_image W path s
  = (Ok (),
     drawn path img date
       (Some ("Altitude : " +:+ str_of_int (round_half_even a) +:+ "m"))
       ((n +:+ ", ") +:+ l) size
       (set_requests (requests s ++ [url]) s)).
Proof.
  intros coords url Hopen Hparse Hdate Hgps Hwf Hlat Hlon Halt Hreq Hdata
    Hname Hloc Hsize Hload.
  pose proof (get_image_coords_recognised W gps dla mla sla dlo mlo slo a
                Hwf Hlat Hlon Halt) as Hcoords.
  assert (Htruthy : truthy (from_none (Dict.get "GPSInfo" data)) = true).
  { rewrite Hgps. simpl. by destruct gps. }
  assert (Hfrom : from_none (Dict.get "GPSInfo" data) = VDict gps)
    by (by rewrite Hgps).
  rewrite <- Hfrom in Hcoords.
  rewrite (show_image_gps W path s img data date _ Hopen Hparse Hdate
             Htruthy Hcoords).
  rewrite get_image_location_eq. subst url coords. cbn [fst snd] in *.
  rewrite Hreq. simpl. unfold location_of, first_result. simpl.
  rewrite Hdata. simpl. rewrite Hname. simpl. rewrite Hloc. simpl.
  rewrite draw_eq. simpl. by rewrite Hsize, Hload.
Qed.

Lemma show_image_geolocated_overlay_witness :
  canvas (show_image Sample.online "img/a.jpg"
            (init Sample.online "img/")).2 !! 3%nat
  = Some (CanvasText 20%Q (inject_Z (1080 - 10)) (Some "Altitude : 36m") "sw").
Proof.
  rewrite (show_image_geolocated_overlay Sample.online "img/a.jpg"
             (init Sample.online "img/")
             (Image 4000 3000
                (Ok (Some [(271, VStr "Cam");
                           (36867, VStr "2021:05:10 14:30:00");
                           (34853, VDict Sample.gps)])) (Ok ()))
             [("Make", VStr "Cam");
              ("DateTimeOriginal", VStr "2021:05:10 14:30:00");
              ("GPSInfo", VDict Sample.gps)]
             "10/05/2021 14:30:00" Sample.gps
             48 51 (3024 # 100) 2 17 40 (357 # 10)
             [("data", JArr [JObj [("name", JStr "Tour Eiffel");
                                   ("locality", JStr "Paris")]])]
             [("name", JStr "Tour Eiffel"); ("locality", JStr "Paris")] []
             "Tour Eiffel" "Paris" (1440, 1080)).
  - reflexivity.
  - reflexivity.
  - reflexivity.
  - reflexivity.
  - reflexivity.
  - apply (bool_decide_unpack _). by vm_compute.
  - reflexivity.
  - reflexivity.
  - reflexivity.
  - reflexivity.
  - reflexivity.
  - reflexivity.
  - reflexivity.
  - reflexivity.
  - reflexivity.
Defined.

(** ** Ticks *)

Lemma start_slideshow_effect (W : World) delay s path :
  image_list s !! current_id s = Some path →
  let r := start_slideshow W delay s in
  current_id r.2 = ((current_id s + 1) mod length (image_list s))%nat
  ∧ image_list r.2 = image_list s
  ∧ (r.1 = Ok () →
     timers r.2 = (timers s ++ [(delay * 1000, StartSlideshow)])%list)
  ∧ (∀ e, r.1 = Raise e →
       timers r.2 = timers s ∧ canvas r.2 = canvas s
       ∧ current_image r.2 = current_image s).
Proof.
  intros Hpath r. subst r.
  rewrite (start_slideshow_eq W delay s path Hpath).
  set (s0 := set_current_id _ s).
  destruct (show_image_cases W path s0)
    as [[e H]|[(e & url & H)|[(img & date & size & H)
                             |(img & date & n & loc & size & url & H)]]];
    rewrite H; simpl; split_and!; try done; by intros ? [=].
Qed.

(** X12: a tick on a cursor within the list moves the cursor by one
    modulo the length whether or not the image could be shown; it
    registers one timer of [delay * 1000] ms when it succeeds, and when
    it raises it registers none and leaves the display as it was. *)
Theorem start_slideshow_tick (W : World) delay s path :
  image_list s !! current_id s = Some path →
  let r := start_slideshow W delay s in
  current_id r.2 = ((current_id s + 1) mod length (image_list s))%nat
  ∧ image_list r.2 = image_list s
  ∧ (r.1 = Ok () →
     timers r.2 = (timers s ++ [(delay * 1000, StartSlideshow)])%list)
  ∧ (∀ e, r.1 = Raise e →
       timers r.2 = timers s ∧ canvas r.2 = canvas s
       ∧ current_image r.2 = current_image s).
Proof. apply start_slideshow_effect. Qed.

Lemma start_slideshow_tick_witness :
  let s := set_current_id 2 (init Sample.offline "img/") in
  let r := start_slideshow Sample.offline 2 s in
  current_id r.2 = 0%nat ∧ timers r.2 = [].
Proof.
  intros s r.
  destruct (start_slideshow_tick Sample.offline 2 s "img/a.jpg")
    as (Hcursor & _ & _ & Hraise); [reflexivity|].
  split; [exact Hcursor|].
  destruct (Hraise ConnectionError) as (Htimers & _); [reflexivity|].
  exact Htimers.
Defined.

Lemma mainloop_no_timer (W : World) s n :
  timers s = [] → mainloop W n s = ([], s).
Proof.
  intros Ht. destruct n as [|n]; [done|].
  simpl. unfold mainloop_turn. by rewrite Ht.
Qed.

Lemma start_slideshow_out_of_range (W : World) delay s :
  image_list s !! current_id s = None →
  start_slideshow W delay s = (Raise IndexError, s).
Proof.
  intros Hnone.
  unfold start_slideshow, select_and_advance, mbind, M_bind, gets, lift.
  by rewrite Hnone.
Qed.

(** X13: a turn of the event loop with one timer pending either runs a
    tick that succeeds and leaves one timer pending, of 4000 ms, or runs
    a tick that raises and leaves none; in the second case the loop
    never runs a tick again. *)
Theorem mainloop_turn_single_timer (W : World) s ms cb :
  timers s = [(ms, cb)] →
  let r := mainloop_turn W s in
  (r.1 = Some (ms, Ok ()) ∧ timers r.2 = [(4000, StartSlideshow)])
  ∨ (∃ e, r.1 = Some (ms, Raise e) ∧ timers r.2 = []
          ∧ ∀ n, mainloop W n r.2 = ([], r.2)).
Proof.
  intros Ht r. subst r. unfold mainloop_turn. rewrite Ht.
  destruct cb. unfold call.
  set (s0 := set_timers [] s).
  destruct (image_list s0 !! current_id s0) as [path|] eqn:Hpath.
  - destruct (start_slideshow_effect W default_delay s0 path Hpath)
      as (_ & _ & Hok & Hraise).
    destruct (start_slideshow W default_delay s0) as [[[]|e] s1]; simpl in *.
    + left. split; [done|]. by rewrite Hok.
    + right. exists e. destruct (Hraise e eq_refl) as (Htimers & _).
      split_and!; [done|done|]. intros n. by apply mainloop_no_timer.
  - rewrite (start_slideshow_out_of_range W default_delay s0 Hpath). simpl.
    right. exists IndexError. split_and!; [done|done|].
    intros n. by apply mainloop_no_timer.
Qed.

Lemma mainloop_turn_single_timer_witness :
  let s := set_current_id 2
             (start_slideshow Sample.offline 2
                (init Sample.offline "img/")).2 in
  ∃ e, (mainloop_turn Sample.offline s).1 = Some (2000, Raise e)
       ∧ ∀ n, mainloop Sample.offline n (mainloop_turn Sample.offline s).2
              = ([], (mainloop_turn Sample.offline s).2).
Proof.
  intros s.
  destruct (mainloop_turn_single_timer Sample.offline s 2000 StartSlideshow)
    as [[Hok _]|(e & Hraise & _ & Hstop)]; [reflexivity| |].
  - discriminate Hok.
  - exists e. split; [exact Hraise|exact Hstop].
Defined.

(** ** The sequencer from any cursor *)

Section Cursor.
Local Open Scope nat_scope.

Lemma mod_wrap a n : n ≤ a < n + n → a mod n = a - n.
Proof.
  intros Ha. replace a with ((a - n) + 1 * n) at 1 by lia.
  rewrite Nat.Div0.mod_add. apply Nat.mod_small. lia.
Qed.

(** X14: from any cursor within the list, as many calls of the
    select-and-advance step as the list has paths return the list read
    from the cursor round to the cursor, hence every path once, and
    leave the state exactly as it was. *)
Theorem nexts_full_cycle (s : SlideShow) :
  let l := image_list s in
  current_id s < length l →
  (nexts (length l) s).1 = rotate_from (current_id s) l
  ∧ (nexts (length l) s).1 ≡ₚ l
  ∧ (nexts (length l) s).2 = s.
Proof.
  intros l Hc.
  destruct (nexts_spec l (length l) s) as (Hlen & Hshown & Hstate);
    [done|done|].
  assert (Hrot : (nexts (length l) s).1 = rotate_from (current_id s) l).
  { apply list_eq. intros i. unfold rotate_from.
    destruct (decide (i < length l)) as [Hi|Hi].
    - rewrite Hshown by done.
      destruct (decide (current_id s + i < length l)).
      + rewrite Nat.mod_small by done.
        rewrite lookup_app_l by (rewrite length_drop; lia).
        by rewrite lookup_drop.
      + rewrite mod_wrap by lia.
        rewrite lookup_app_r by (rewrite length_drop; lia).
        rewrite length_drop, lookup_take_lt by lia. f_equal. lia.
    - rewrite !lookup_ge_None_2; [done| |lia].
      rewrite length_app, length_drop, length_take. lia. }
  split_and!; [done| |].
  - rewrite Hrot. unfold rotate_from.
    by rewrite (Permutation_app_comm (drop _ _)), take_drop.
  - rewrite Hstate.
    replace ((current_id s + length l) mod length l) with (current_id s).
    + by destruct s.
    + rewrite mod_wrap by lia. lia.
Qed.

Lemma nexts_full_cycle_witness :
  let s := set_current_id 1 (init Sample.online "img/") in
  (nexts 3 s).1 = ["img/sub/c.jpeg"; "img/a.jpg"; "img/b.PNG"]
  ∧ (nexts 3 s).2 = s.
Proof.
  intros s.
  destruct (nexts_full_cycle s) as (Hshown & _ & Hstate); [simpl; lia|].
  split; [exact Hshown|exact Hstate].
Defined.

(** X15: the select-and-advance step raises [IndexError] and changes
    nothing when the cursor is not within the list; when it is, the
    cursor it leaves is within the list again. *)
Theorem select_and_advance_cursor (s : SlideShow) :
  (length (image_list s) ≤ current_id s →
   select_and_advance s = (Raise IndexError, s))
  ∧ (current_id s < length (image_list s) →
     ∃ path,
       (select_and_advance s).1 = Ok path
       ∧ image_list s !! current_id s = Some path
       ∧ current_id (select_and_advance s).2
         < length (image_list (select_and_advance s).2)).
Proof.
  split.
  - intros Hc%lookup_ge_None_2.
    unfold select_and_advance, mbind, M_bind, gets, lift. by rewrite Hc.
  - intros Hc. destruct (lookup_lt_is_Some_2 _ _ Hc) as [path Hpath].
    exists path. rewrite (select_and_advance_eq s path Hpath). simpl.
    split_and!; [done|done|]. apply Nat.mod_upper_bound. lia.
Qed.

Lemma select_and_advance_cursor_witness :
  select_and_advance (set_current_id 3 (init Sample.online "img/"))
  = (Raise IndexError, set_current_id 3 (init Sample.online "img/")).
Proof.
  apply (select_and_advance_cursor
           (set_current_id 3 (init Sample.online "img/"))).
  simpl. lia.
Defined.

End Cursor.

(** ** GPS blocks with parts missing *)

Lemma coords_data_nonempty (gps : list (Z * value)) k v name :
  Dict.wf gps → (k, v) ∈ gps → Dict.get k GPSTAGS = Some name →
  rename_keys (λ k, Dict.get k GPSTAGS) gps ≠ [].
Proof.
  intros Hwf Hin Hk. eapply (get_some_nonempty name v).
  rewrite (coords_data_get gps k name) by done.
  by apply get_elem_of_inv.
Qed.

(** X16: a GPS block that holds a recognised tag but no latitude, or a
    latitude but no longitude, or both but no altitude, makes
    [get_image_coords] raise [TypeError]: a missing entry reads as
    [None], which is neither subscriptable nor roundable. *)
Theorem get_image_coords_partial_block (W : World) (gps : list (Z * value))
    k v name dla mla sla dlo mlo slo :
  Dict.wf gps →
  (k, v) ∈ gps →
  Dict.get k GPSTAGS = Some name →
  Dict.get 2 gps = None
  ∨ (Dict.get 2 gps = Some (VTuple [VNum dla; VNum mla; VNum sla])
     ∧ Dict.get 4 gps = None)
  ∨ (Dict.get 2 gps = Some (VTuple [VNum dla; VNum mla; VNum sla])
     ∧ Dict.get 4 gps = Some (VTuple [VNum dlo; VNum mlo; VNum slo])
     ∧ Dict.get 6 gps = None) →
  get_image_coords W (VDict gps) = Raise TypeError.
Proof.
  intros Hwf Hin Hk Hmissing.
  pose proof (coords_data_nonempty gps k v name Hwf Hin Hk) as Hne.
  unfold get_image_coords, mbind, result_bind.
  rewrite bool_decide_eq_false_2 by done. cbn [negb].
  rewrite (coords_data_get gps 2 "GPSLatitude") by done.
  rewrite (coords_data_get gps 4 "GPSLongitude") by done.
  rewrite (coords_data_get gps 6 "GPSAltitude") by done.
  destruct Hmissing as [Hlat|[[Hlat Hlon]|(Hlat & Hlon & Halt)]].
  - by rewrite Hlat.
  - by rewrite Hlat, Hlon.
  - by rewrite Hlat, Hlon, Halt.
Qed.

Lemma get_image_coords_partial_block_witness :
  get_image_coords Sample.online (VDict [(0, VBytes "abc")])
  = Raise TypeError.
Proof.
  apply (get_image_coords_partial_block Sample.online [(0, VBytes "abc")]
           0 (VBytes "abc") "GPSVersionID" 0 0 0 0 0 0).
  - apply (bool_decide_unpack _). by vm_compute.
  - left.
  - reflexivity.
  - left. reflexivity.
Defined.

(** ** Ranges *)



Lemma round_half_even_near (q : Q) :
  (Qabs (inject_Z (round_half_even q) - q) <= 1 # 2)%Q.
Proof.
  unfold round_half_even.
  pose proof (Qfloor_le q) as Hlo. pose proof (Qlt_floor q) as Hhi.
  set (f := Qfloor q) in *. clearbody f.
  rewrite inject_Z_plus in Hhi. change (inject_Z 1) with 1%Q in Hhi.
  apply Qabs_Qle_condition.
  destruct (q - inject_Z f ?= 1 # 2)%Q eqn:Hcmp.
  - apply Qeq_alt in Hcmp.
    destruct (Z.even f); rewrite ?inject_Z_plus;
      change (inject_Z 1) with 1%Q; lra.
  - apply Qlt_alt in Hcmp. lra.
  - apply Qgt_alt in Hcmp. rewrite inject_Z_plus.
    change (inject_Z 1) with 1%Q. lra.
Qed.

(** X18: the altitude returned for a GPS block is the whole number of
    metres nearest to the stored altitude: it is at most half a metre
    away from it. *)
Theorem altitude_rounded_to_nearest (W : World) (gps : list (Z * value))
    (dla mla sla dlo mlo slo a : Q) :
  Dict.wf gps →
  Dict.get 2 gps = Some (VTuple [VNum dla; VNum mla; VNum sla]) →
  Dict.get 4 gps = Some (VTuple [VNum dlo; VNum mlo; VNum slo]) →
  Dict.get 6 gps = Some (VNum a) →
  ∃ lat lon alt,
    get_image_coords W (VDict gps) = Ok (lat, lon, alt)
    ∧ (Qabs (inject_Z alt - a) <= 1 # 2)%Q.
Proof.
  intros Hwf Hlat Hlon Halt. do 3 eexists.
  split; [by apply get_image_coords_recognised|].
  apply round_half_even_near.
Qed.

Lemma altitude_rounded_to_nearest_witness :
  ∃ lat lon alt,
    get_image_coords Sample.online (VDict Sample.gps) = Ok (lat, lon, alt)
    ∧ (Qabs (inject_Z alt - (357 # 10)) <= 1 # 2)%Q.
Proof.
  apply (altitude_rounded_to_nearest Sample.online Sample.gps
           48 51 (3024 # 100) 2 17 40 (357 # 10)).
  - apply (bool_decide_unpack _). by vm_compute.
  - reflexivity.
  - reflexivity.
  - reflexivity.
Defined.

(** ** Dates that are not on the calendar *)

Lemma exif_format_shaped t :
  1 ≤ month t ≤ 12 → 1 ≤ day t ≤ 31 → 0 ≤ hour t ≤ 23 →
  0 ≤ minute t ≤ 59 → 0 ≤ second t ≤ 59 →
  Re.exif_format (exif_text t)
  = Some (pad4 (year t), pad2 (month t), pad2 (day t), pad2 (hour t),
          pad2 (minute t), pad2 (second t), "").
Proof.
  intros Hm Hd HH HM HS.
  unfold Re.exif_format, exif_text, pad4, pad2. cbv [String.append].
  apply alt_Y. cbn [Re.lit Ascii.eqb Bool.eqb].
  apply alt_m; [lia|]. cbn [Re.lit Ascii.eqb Bool.eqb].
  apply alt_d; [lia|]. cbn [Re.spaces1 Re.spaces].
  change (Re.is_space " ") with true. cbv iota.
  rewrite is_space_digit.
  apply alt_H; [lia|]. cbn [Re.lit Ascii.eqb Bool.eqb].
  apply alt_M; [lia|]. cbn [Re.lit Ascii.eqb Bool.eqb].
  apply alt_S; [lia|]. reflexivity.
Qed.

(** X19: a raw date of the right shape that names no day of the
    calendar (the year 0000, or a day beyond the end of its month, such
    as 30 February) makes [get_image_date] raise [ValueError]; the
    modification time of the file is not used in its place. *)
Theorem get_image_date_off_calendar (W : World) path t :
  0 ≤ year t ≤ 9999 → 1 ≤ month t ≤ 12 → 1 ≤ day t ≤ 31 →
  0 ≤ hour t ≤ 23 → 0 ≤ minute t ≤ 59 → 0 ≤ second t ≤ 59 →
  year t = 0 ∨ days_in_month (year t) (month t) < day t →
  get_image_date W path (VStr (exif_text t)) = Raise ValueError.
Proof.
  intros Hy Hm Hd HH HM HS Hoff. unfold get_image_date.
  assert (truthy (VStr (exif_text t)) = true) as -> by done.
  unfold strptime. rewrite exif_format_shaped by done.
  rewrite py_int_pad4, !py_int_pad2 by lia.
  assert (valid_datetime t = false) as Hinvalid.
  { apply bool_decide_eq_false_2. lia. }
  destruct t. simpl in *. by rewrite Hinvalid.
Qed.

Lemma get_image_date_off_calendar_witness :
  get_image_date Sample.online "img/a.jpg" (VStr "2021:02:30 12:00:00")
  = Raise ValueError.
Proof.
  apply (get_image_date_off_calendar Sample.online "img/a.jpg"
           (Datetime 2021 2 30 12 0 0)); simpl; try lia.
  right. by vm_compute.
Defined.

(** ** Which date is shown *)

Lemma show_image_date (W : World) path s s' img data :
  image_open W path = Ok img →
  parse_image_data W img = Ok data →
  show_image W path s = (Ok (), s') →
  ∃ date,
    get_image_date W path
      (default (from_none (Dict.get "DateTime" data))
         (Dict.get "DateTimeOriginal" data)) = Ok date
    ∧ canvas s' !! 1%nat = Some (CanvasText 20%Q 10%Q (Some date) "nw").
Proof.
  intros Hopen Hparse Hshow.
  destruct (get_image_date W path
              (default (from_none (Dict.get "DateTime" data))
                 (Dict.get "DateTimeOriginal" data))) as [date|e] eqn:Hdate;
    [|by unfold show_image, mbind, M_bind, lift in Hshow;
         rewrite Hopen, Hparse, Hdate in Hshow].
  exists date. split; [done|].
  destruct (truthy (from_none (Dict.get "GPSInfo" data))) eqn:Hgps.
  - destruct (get_image_coords W (from_none (Dict.get "GPSInfo" data)))
      as [coords|e] eqn:Hcoords;
      [|by unfold show_image, mbind, M_bind, lift in Hshow;
           rewrite Hopen, Hparse, Hdate, Hgps, Hcoords in Hshow].
    rewrite (show_image_gps W path s img data date coords) in Hshow by done.
    rewrite get_image_location_eq in Hshow.
    destruct (requests_get W _ _ ≫= _) as [loc|e]; [|discriminate Hshow].
    rewrite draw_eq in Hshow. simpl in Hshow.
    destruct (thumbnail_size _ _ _ _) as [size|e]; [|done].
    destruct (load img); [|done]. by injection Hshow as <-.
  - rewrite (show_image_no_gps W path s img data) in Hshow by done.
    rewrite Hdate, draw_eq in Hshow.
    destruct (thumbnail_size _ _ _ _) as [size|e]; [|done].
    destruct (load img); [|done]. by injection Hshow as <-.
Qed.

(** X20: the capture date [DateTimeOriginal] takes precedence over
    [DateTime]; when it is present but empty the date shown is the
    modification time of the file, whatever [DateTime] holds. *)
Theorem empty_DateTimeOriginal_hides_DateTime (W : World) path s s' img data
    raw mtime t :
  image_open W path = Ok img →
  parse_image_data W img = Ok data →
  Dict.get "DateTimeOriginal" data = Some raw →
  truthy raw = false →
  st_mtime W path = Ok mtime →
  fromtimestamp W mtime = Ok t →
  show_image W path s = (Ok (), s') →
  canvas s' !! 1%nat
  = Some (CanvasText 20%Q 10%Q (Some (strftime W t)) "nw").
Proof.
  intros Hopen Hparse Horig Hraw Hmtime Ht Hshow.
  destruct (show_image_date W path s s' img data Hopen Hparse Hshow)
    as (date & Hdate & Hcanvas).
  rewrite Horig in Hdate. simpl in Hdate. unfold get_image_date in Hdate.
  rewrite Hraw, Hmtime in Hdate. simpl in Hdate. rewrite Ht in Hdate.
  simpl in Hdate. injection Hdate as <-. done.
Qed.

Lemma empty_DateTimeOriginal_hides_DateTime_witness :
  let W :=
    {| TAGS := TAGS Sample.online;
       float_of_str := float_of_str Sample.online;
       str_of_float := str_of_float Sample.online;
       strftime_year := pad4;
       os_walk := os_walk Sample.online;
       random_bits := random_bits Sample.online;
       image_open := λ _,
         Ok (Image 800 600
               (Ok (Some [(306, VStr "2019:01:02 03:04:05");
                          (36867, VStr "")])) (Ok ()));
       st_mtime := st_mtime Sample.online;
       fromtimestamp := fromtimestamp Sample.online;
       environ_API_KEY := None;
       requests_get := requests_get Sample.online;
       winfo_screenwidth := 1920;
       winfo_screenheight := 1080 |} in
  canvas (show_image W "img/e.jpg" (init W "img/")).2 !! 1%nat
  = Some (CanvasText 20%Q 10%Q (Some "10/05/2021 16:30:00") "nw").
Proof.
  intros W.
  apply (empty_DateTimeOriginal_hides_DateTime W "img/e.jpg" (init W "img/")
           (show_image W "img/e.jpg" (init W "img/")).2
           (Image 800 600
              (Ok (Some [(306, VStr "2019:01:02 03:04:05");
                         (36867, VStr "")])) (Ok ()))
           [("DateTime", VStr "2019:01:02 03:04:05");
            ("DateTimeOriginal", VStr "")]
           (VStr "") 1620657000%Q (Datetime 2021 5 10 16 30 0));
    reflexivity.
Defined.

(** ** What the loop keeps *)

Lemma start_slideshow_keeps (W : World) delay s :
  let s' := (start_slideshow W delay s).2 in
  image_list s' = image_list s ∧ directory s' = directory s
  ∧ screen_w s' = screen_w s ∧ screen_h s' = screen_h s
  ∧ (current_id s < length (image_list s) →
     current_id s' < length (image_list s'))%nat.
Proof.
  destruct (image_list s !! current_id s) as [path|] eqn:Hpath.
  - rewrite (start_slideshow_eq W delay s path Hpath).
    set (s0 := set_current_id _ s).
    assert (Hc : (current_id s0 < length (image_list s0))%nat).
    { simpl. apply Nat.mod_upper_bound.
      apply lookup_lt_Some in Hpath. lia. }
    destruct (show_image_cases W path s0)
      as [[e H]|[(e & url & H)|[(img & date & size & H)
                               |(img & date & n & loc & size & url & H)]]];
      rewrite H; simpl; split_and!; done.
  - rewrite (start_slideshow_out_of_range W delay s Hpath). simpl.
    split_and!; done.
Qed.

Lemma mainloop_turn_keeps (W : World) s :
  let s' := (mainloop_turn W s).2 in
  image_list s' = image_list s ∧ directory s' = directory s
  ∧ screen_w s' = screen_w s ∧ screen_h s' = screen_h s
  ∧ (current_id s < length (image_list s) →
     current_id s' < length (image_list s'))%nat.
Proof.
  unfold mainloop_turn. destruct (timers s) as [|[ms cb] ts] eqn:Ht.
  - simpl. split_and!; done.
  - destruct cb. unfold call.
    pose proof (start_slideshow_keeps W default_delay (set_timers ts s)) as H.
    by destruct (start_slideshow W default_delay (set_timers ts s)).
Qed.

(** X21: however many turns the event loop runs, the list of images,
    the directory and the screen size stay what they were, and a cursor
    within the list stays within the list. *)
Theorem mainloop_keeps_sequence (W : World) n s :
  let s' := (mainloop W n s).2 in
  image_list s' = image_list s ∧ directory s' = directory s
  ∧ screen_w s' = screen_w s ∧ screen_h s' = screen_h s
  ∧ (current_id s < length (image_list s) →
     current_id s' < length (image_list s'))%nat.
Proof.
  revert s. induction n as [|n IH]; intros s; simpl; [split_and!; done|].
  pose proof (mainloop_turn_keeps W s) as Hturn.
  destruct (mainloop_turn W s) as [[[ms r]|] s1]; simpl in *; [|done].
  pose proof (IH s1) as Hrest.
  destruct (mainloop W n s1) as [l s2]. simpl in *.
  destruct Hturn as (A1 & A2 & A3 & A4 & A5).
  destruct Hrest as (B1 & B2 & B3 & B4 & B5).
  split_and!; [congruence..|]. intros Hc. auto.
Qed.

Lemma mainloop_keeps_sequence_witness :
  let s := (start_slideshow Sample.online 2 (init Sample.online "img/")).2 in
  (current_id (mainloop Sample.online 5 s).2
   < length (image_list (mainloop Sample.online 5 s).2))%nat.
Proof.
  intros s.
  destruct (mainloop_keeps_sequence Sample.online 5 s) as (_ & _ & _ & _ & Hc).
  apply Hc. simpl. lia.
Defined.

(** * Properties of [db.py] *)

(** X22: [create_table] never returns a true value.  When the lookup in
    [sqlite_master] yields a row it prints a line, returns [False] and
    executes nothing else; otherwise it executes one [CREATE TABLE]
    listing the columns in the order of the dict and returns [None]. *)
Theorem create_table_result (E : DB.Engine) (table_name : string)
    (columns : list (string * string)) (h h' : list DB.event) (r : DB.ret) :
  let lookup := "SELECT name FROM sqlite_master WHERE type='table' AND name='"
                +:+ table_name +:+ "'" in
  DB.create_table E table_name columns h = (Ok r, h') →
  DB.truthy_ret r = false
  ∧ ∃ rows,
      DB.execute E h lookup [] = Ok rows
      ∧ if DB.truthy_ret (DB.fetchone rows) then
          r = DB.RFalse
          ∧ h' = (h ++ [DB.Execute lookup [];
                        DB.Print ("Table '" +:+ table_name
                                  +:+ "' already exists, skipping...")])%list
        else
          r = DB.RNone
          ∧ h' = (h ++ [DB.Execute lookup [];
                        DB.Execute
                          ("CREATE TABLE " +:+ table_name +:+ " ("
                           +:+ String.concat ", "
                                 ((λ kv, kv.1 +:+ " " +:+ kv.2) <$> columns)
                           +:+ ")") []])%list.
Proof.
  intros lookup.
  unfold DB.create_table, mbind, DB.M_bind, DB.cursor_execute, DB.print, mret,
    DB.M_ret.
  fold lookup. destruct (DB.execute E h lookup []) as [rows|e]; [|done].
  destruct (DB.truthy_ret (DB.fetchone rows)) eqn:Hfound.
  - intros [= <- <-]. split; [done|]. exists rows. rewrite Hfound.
    by rewrite <- app_assoc.
  - destruct (DB.execute E _ _ _); [|done]. intros [= <- <-].
    split; [done|]. exists rows. rewrite Hfound. by rewrite <- app_assoc.
Qed.

Lemma create_table_result_witness :
  (DB.create_table (DB.sample true) "locations" [("id", "INTEGER")] []).1
  = Ok DB.RFalse
  ∧ (DB.create_table (DB.sample false) "locations"
       [("id", "INTEGER"); ("place", "TEXT")] []).2
    = [DB.Execute
         "SELECT name FROM sqlite_master WHERE type='table' AND name='locations'"
         [];
       DB.Execute "CREATE TABLE locations (id INTEGER, place TEXT)" []].
Proof.
  split.
  - destruct (create_table_result (DB.sample true) "locations"
                [("id", "INTEGER")] []
                (DB.create_table (DB.sample true) "locations"
                   [("id", "INTEGER")] []).2 DB.RFalse)
      as (_ & rows & Hrows & Hr); [reflexivity|].
    reflexivity.
  - destruct (create_table_result (DB.sample false) "locations"
                [("id", "INTEGER"); ("place", "TEXT")] []
                (DB.create_table (DB.sample false) "locations"
                   [("id", "INTEGER"); ("place", "TEXT")] []).2 DB.RNone)
      as (_ & rows & Hrows & Hr); [reflexivity|].
    injection Hrows as <-. destruct Hr as [_ Hh]. exact Hh.
Defined.

Lemma count_placeholders (n : nat) :
  length (filter (λ c, c = "?"%char)
            (list_ascii_of_string (String.concat ", " (replicate n "?"))))
  = n.
Proof.
  induction n as [|[|n] IH]; [done..|].
  change (replicate (S (S n)) "?") with ("?" :: replicate (S n) "?").
  change (String.concat ", " ("?" :: replicate (S n) "?"))
    with (String "?" (String "," (String " "
            (String.concat ", " (replicate (S n) "?"))))).
  cbn [list_ascii_of_string]. rewrite !filter_cons.
  rewrite decide_True by done. rewrite !decide_False by done.
  cbn [length]. by rewrite IH.
Qed.

(** X23: [insert_row] writes once or not at all.  When the check for an
    existing row yields a row it prints a line, returns [False] and
    executes no [INSERT] and no commit; otherwise it executes one [INSERT]
    whose [VALUES] list has one placeholder per entry of the dict, binds
    the values of the dict in order, commits once and returns
    [cursor.lastrowid]. *)
Theorem insert_row_result (E : DB.Engine) (table_name : string)
    (data : list (string * value))
    (h h' : list DB.event) (r : DB.ret) :
  let check := "SELECT * FROM " +:+ table_name +:+ " WHERE "
               +:+ String.concat " OR "
                     (zip_with (λ c v, c +:+ "='" +:+ DB.fmt E v +:+ "'")
                        data.*1 data.*2) in
  let placeholders := String.concat ", " (replicate (length data.*2) "?") in
  let insert := "INSERT INTO " +:+ table_name +:+ " ("
                +:+ String.concat ", " data.*1 +:+ ") VALUES ("
                +:+ placeholders +:+ ")" in
  DB.insert_row E table_name data h = (Ok r, h') →
  length (filter (λ c, c = "?"%char) (list_ascii_of_string placeholders))
  = length data
  ∧ ∃ rows,
      DB.execute E h check [] = Ok rows
      ∧ if DB.truthy_ret (DB.fetchone rows) then
          r = DB.RFalse
          ∧ h' = (h ++ [DB.Execute check [];
                        DB.Print ("Row already exists in table '"
                                  +:+ table_name +:+ "'")])%list
        else
          h' = (h ++ [DB.Execute check []; DB.Execute insert data.*2;
                      DB.Commit])%list
          ∧ r = match DB.lastrowid E h' with
                | Some n => DB.RInt n
                | None => DB.RNone
                end.
Proof.
  intros check placeholders insert.
  unfold DB.insert_row, mbind, DB.M_bind, DB.cursor_execute, DB.print,
    DB.conn_commit, DB.cursor_lastrowid, mret, DB.M_ret.
  fold check placeholders insert.
  destruct (DB.execute E h check []) as [rows|e]; [|done].
  intros Hrun. split.
  { unfold placeholders. by rewrite count_placeholders, length_fmap. }
  exists rows. split; [done|].
  destruct (DB.truthy_ret (DB.fetchone rows)) eqn:Hfound.
  - injection Hrun as <- <-. by rewrite <- app_assoc.
  - destruct (DB.execute E _ _ _); [|done].
    destruct (DB.commit E _); [|done].
    injection Hrun as <- <-. by rewrite <- !app_assoc.
Qed.

Lemma insert_row_result_witness :
  (DB.insert_row (DB.sample true) "locations"
     [("picture", VStr "eiffel_tower.jpg"); ("place", VStr "Paris")] []).2
  = [DB.Execute
       "SELECT * FROM locations WHERE picture='eiffel_tower.jpg' OR place='Paris'"
       [];
     DB.Print "Row already exists in table 'locations'"].
Proof.
  destruct (insert_row_result (DB.sample true) "locations"
              [("picture", VStr "eiffel_tower.jpg"); ("place", VStr "Paris")]
              []
              (DB.insert_row (DB.sample true) "locations"
                 [("picture", VStr "eiffel_tower.jpg");
                  ("place", VStr "Paris")] []).2 DB.RFalse)
    as (_ & rows & Hrows & Hr); [reflexivity|].
  injection Hrows as <-. destruct Hr as [_ Hh]. exact Hh.
Defined.

(** X24: a latitude that is a tuple of fewer than three numbers makes
    [get_image_coords] raise [IndexError], whatever else the GPS block
    holds. *)
Theorem get_image_coords_short_latitude (W : World) (gps : list (Z * value))
    (l : list Q) :
  Dict.wf gps →
  Dict.get 2 gps = Some (VTuple (VNum <$> l)) →
  (length l < 3)%nat →
  get_image_coords W (VDict gps) = Raise IndexError.
Proof.
  intros Hwf Hlat Hlen.
  assert (Hne : rename_keys (λ k, Dict.get k GPSTAGS) gps ≠ []).
  { eapply get_some_nonempty.
    rewrite (coords_data_get gps 2 "GPSLatitude") by done. apply Hlat. }
  unfold get_image_coords, mbind, result_bind.
  rewrite bool_decide_eq_false_2 by done. cbn [negb].
  rewrite (coords_data_get gps 2 "GPSLatitude"), Hlat by done.
  destruct l as [|d [|m [|s l]]]; simpl in *; try done. lia.
Qed.

Lemma get_image_coords_short_latitude_witness :
  get_image_coords Sample.online
    (VDict [(1, VStr "N"); (2, VTuple [VNum 48; VNum (5151 # 100)])])
  = Raise IndexError.
Proof.
  apply (get_image_coords_short_latitude Sample.online
           [(1, VStr "N"); (2, VTuple [VNum 48; VNum (5151 # 100)])]
           [48%Q; (5151 # 100)%Q]).
  - apply (bool_decide_unpack _). by vm_compute.
  - reflexivity.
  - simpl. lia.
Defined.
